(** * Week2/BERT/dataset.py: the [IMDBBertDataset] build, embedded and checked

    The Python class [IMDBBertDataset] is embedded as a state-and-exception
    monad over the fields of [self] and the process-global generator of the
    [random] module.  Library calls ([str.split], [collections.Counter],
    [torchtext.vocab], [np.percentile], [random.randint], [pd.DataFrame])
    are modelled by what they do on the arguments the class passes. *)

From Stdlib Require Import ZArith QArith Ascii String.
From stdpp Require Import gmap strings list sorting.

Local Open Scope string_scope.
Local Open Scope Z_scope.

(** ** Python strings

    A [str] is a sequence of characters; [string] holds characters with
    code points below 256. *)

Module PyStr.

Fixpoint rev_acc (s acc : string) : string :=
  match s with
  | EmptyString => acc
  | String c s' => rev_acc s' (String c acc)
  end.

(** [s.split(sep)] for a separator of at least one character: the pieces
    between the non-overlapping occurrences of [sep], found left to right.
    [skip] counts the characters of a matched separator still to drop,
    [cur] is the current piece, reversed. *)
Fixpoint split_go (sep : string) (skip : nat) (cur : string) (s : string)
  : list string :=
  match s with
  | EmptyString => [rev_acc cur ""]
  | String c s' =>
      match skip with
      | S k => split_go sep k cur s'
      | O =>
          if String.prefix sep s
          then rev_acc cur "" :: split_go sep (String.length sep - 1) "" s'
          else split_go sep 0 (String c cur) s'
      end
  end.

Definition split (s sep : string) : list string := split_go sep 0 "" s.

(** [c.isspace()] on the code points below 256. *)
Definition isspace (c : ascii) : bool :=
  let n := nat_of_ascii c in
  ((9 <=? n) && (n <=? 13) || (28 <=? n) && (n <=? 32)
   || (n =? 133) || (n =? 160))%nat.

(** [s.split()]: the maximal runs of characters that are not whitespace. *)
Fixpoint split_ws_go (cur : string) (s : string) : list string :=
  match s with
  | EmptyString =>
      match cur with EmptyString => [] | _ => [rev_acc cur ""] end
  | String c s' =>
      if isspace c
      then match cur with
           | EmptyString => split_ws_go "" s'
           | _ => rev_acc cur "" :: split_ws_go "" s'
           end
      else split_ws_go (String c cur) s'
  end.

Definition split_ws (s : string) : list string := split_ws_go "" s.

End PyStr.

(** ** Exceptions and outcomes

    An exception is identified by the name of its class. *)

Definition exn := string.

Definition ValueError : exn := "ValueError".
Definition IndexError : exn := "IndexError".
Definition TypeError : exn := "TypeError".
Definition AttributeError : exn := "AttributeError".
Definition RuntimeError : exn := "RuntimeError".

(** The two classes of the specification's taxonomy; the module defines and
    raises neither. *)
Definition ConfigurationError : exn := "ConfigurationError".
Definition DataError : exn := "DataError".

(** What running a piece of code gives: a value, a raised exception, or a
    [while] loop that has not left after the given number of passes. *)
Inductive outcome (A : Type) : Type :=
| Return (a : A)
| Raise (e : exn)
| OutOfFuel.
Arguments Return {A} a.
Arguments Raise {A} e.
Arguments OutOfFuel {A}.

Definition obind {A B} (o : outcome A) (k : A → outcome B) : outcome B :=
  match o with
  | Return a => k a
  | Raise e => Raise e
  | OutOfFuel => OutOfFuel
  end.

(** ** Python values that end up in a row of the data frame *)

#[warnings="-register-all"]
Inductive pyval : Type :=
| PyInt (n : Z)
| PyStr (s : string)
| PyList (l : list pyval).

(** [len(v)] *)
Definition py_len (v : pyval) : outcome Z :=
  match v with
  | PyInt _ => Raise TypeError
  | PyStr s => Return (Z.of_nat (String.length s))
  | PyList l => Return (Z.of_nat (length l))
  end.

Definition py_tokens (l : list string) : pyval := PyList (PyStr <$> l).

(** [l[i]] on a list, with Python's negative indices. *)
Definition py_getitem {A} (l : list A) (i : Z) : outcome A :=
  let n := Z.of_nat (length l) in
  let j := if i <? 0 then i + n else i in
  if (j <? 0) || (n <=? j) then Raise IndexError
  else match l !! Z.to_nat j with
       | Some x => Return x
       | None => Raise IndexError
       end.

(** [l[lo:hi]] with optional bounds, step 1. *)
Definition py_slice_bound (n : Z) (dflt : Z) (b : option Z) : Z :=
  match b with
  | None => dflt
  | Some i => let j := if i <? 0 then i + n else i in Z.max 0 (Z.min n j)
  end.

Definition py_slice {A} (l : list A) (lo hi : option Z) : list A :=
  let n := Z.of_nat (length l) in
  let a := py_slice_bound n 0 lo in
  let b := py_slice_bound n n hi in
  take (Z.to_nat (b - a)) (drop (Z.to_nat a) l).


(** ** [collections.Counter]

    A [Counter] is a [dict]: its items are listed in the order in which the
    keys were first inserted. *)

Fixpoint counter_incr (c : list (string * Z)) (t : string) : list (string * Z) :=
  match c with
  | [] => [(t, 1)]
  | (k, n) :: r =>
      if decide (k = t) then (k, n + 1) :: r else (k, n) :: counter_incr r t
  end.

(** [c.update(tokens)] *)
Definition counter_update (c : list (string * Z)) (tokens : list string)
  : list (string * Z) :=
  foldl counter_incr c tokens.

(** ** [torchtext.vocab]

    [Vocab] keeps the vector [itos_] of tokens and the table [stoi_] from a
    token to its index, as the library's C++ class does. *)

Record Vocab : Type := mkVocab {
  itos_ : list string;
  stoi_ : gmap string Z;
  default_index_ : option Z
}.

Module torchtext.

Definition contains (v : Vocab) (t : string) : bool :=
  bool_decide (is_Some (stoi_ v !! t)).

Definition len (v : Vocab) : Z := Z.of_nat (length (itos_ v)).

(** [Vocab::_add] *)
Definition add (v : Vocab) (t : string) : Vocab :=
  mkVocab (itos_ v ++ [t]) (<[t := len v]> (stoi_ v)) (default_index_ v).

(** [Vocab(tokens, None)]: a duplicate in [tokens] is an error. *)
Fixpoint from_tokens (v : Vocab) (tokens : list string) : outcome Vocab :=
  match tokens with
  | [] => Return v
  | t :: r => if contains v t then Raise RuntimeError else from_tokens (add v t) r
  end.

Definition empty : Vocab := mkVocab [] ∅ None.

(** [vocab(ordered_dict, min_freq)], no [specials] given. *)
Definition vocab (ordered_dict : list (string * Z)) (min_freq : Z) : outcome Vocab :=
  from_tokens empty (fst <$> filter (λ kv, min_freq ≤ kv.2) ordered_dict).

(** The loop of [insert_token] that moves the tokens from [index] on one
    place up: [stoi_[itos_[i]] = i + 1]. *)
Fixpoint shift_up (i : Z) (suffix : list string) (m : gmap string Z)
  : gmap string Z :=
  match suffix with
  | [] => m
  | t :: r => shift_up (i + 1) r (<[t := i + 1]> m)
  end.

(** [v.insert_token(token, index)] *)
Definition insert_token (v : Vocab) (token : string) (index : Z) : outcome Vocab :=
  if (index <? 0) || (len v <? index) then Raise RuntimeError
  else if contains v token then Raise RuntimeError
  else
    let k := Z.to_nat index in
    Return (mkVocab (take k (itos_ v) ++ token :: drop k (itos_ v))
                    (<[token := index]> (shift_up index (drop k (itos_ v)) (stoi_ v)))
                    (default_index_ v)).

(** [v.set_default_index(index)] *)
Definition set_default_index (v : Vocab) (index : Z) : Vocab :=
  mkVocab (itos_ v) (stoi_ v) (Some index).

(** [v[token]] *)
Definition getitem (v : Vocab) (token : string) : outcome Z :=
  match stoi_ v !! token with
  | Some i => Return i
  | None =>
      match default_index_ v with
      | Some d => Return d
      | None => Raise RuntimeError
      end
  end.

(** [v.lookup_token(index)] *)
Definition lookup_token (v : Vocab) (index : Z) : outcome string :=
  if (index <? 0) || (len v <=? index) then Raise RuntimeError
  else match itos_ v !! Z.to_nat index with
       | Some t => Return t
       | None => Raise RuntimeError
       end.

End torchtext.

(** ** [numpy]

    The value of [np.percentile] is kept as an exact fraction, or [NaN]. *)

Inductive npfloat : Type :=
| NaN
| Finite (q : Q).

(** [int(x)] on a float: truncation towards zero; [int(nan)] is an error. *)
Definition py_int (x : npfloat) : outcome Z :=
  match x with
  | NaN => Raise ValueError
  | Finite q => Return (Z.quot (Qnum q) (Z.pos (Qden q)))
  end.

(** ** The state: the attributes of [self] and the generator of [random]

    [random_draws] is the sequence of raw values that the process-global
    generator of the [random] module delivers, [random_pos] how many of them
    have been used. *)

Record world : Type := mkWorld {
  ds : list string;
  counter : list (string * Z);
  vocab : option Vocab;
  optimal_sentence_length : option Z;
  should_include_text : bool;
  columns : list string;
  df : option (list (list pyval));
  random_draws : nat → Z;
  random_pos : nat
}.

Definition set_ds (x : list string) (w : world) : world :=
  mkWorld x (counter w) (vocab w) (optimal_sentence_length w)
          (should_include_text w) (columns w) (df w) (random_draws w) (random_pos w).
Definition set_counter (x : list (string * Z)) (w : world) : world :=
  mkWorld (ds w) x (vocab w) (optimal_sentence_length w)
          (should_include_text w) (columns w) (df w) (random_draws w) (random_pos w).
Definition set_vocab (x : option Vocab) (w : world) : world :=
  mkWorld (ds w) (counter w) x (optimal_sentence_length w)
          (should_include_text w) (columns w) (df w) (random_draws w) (random_pos w).
Definition set_optimal_sentence_length (x : option Z) (w : world) : world :=
  mkWorld (ds w) (counter w) (vocab w) x
          (should_include_text w) (columns w) (df w) (random_draws w) (random_pos w).
Definition set_should_include_text (x : bool) (w : world) : world :=
  mkWorld (ds w) (counter w) (vocab w) (optimal_sentence_length w)
          x (columns w) (df w) (random_draws w) (random_pos w).
Definition set_columns (x : list string) (w : world) : world :=
  mkWorld (ds w) (counter w) (vocab w) (optimal_sentence_length w)
          (should_include_text w) x (df w) (random_draws w) (random_pos w).
Definition set_df (x : option (list (list pyval))) (w : world) : world :=
  mkWorld (ds w) (counter w) (vocab w) (optimal_sentence_length w)
          (should_include_text w) (columns w) x (random_draws w) (random_pos w).
Definition set_random_pos (x : nat) (w : world) : world :=
  mkWorld (ds w) (counter w) (vocab w) (optimal_sentence_length w)
          (should_include_text w) (columns w) (df w) (random_draws w) x.

(** ** The monad: state passing with exceptions

    A raised exception keeps the state reached so far, as in Python. *)

Definition M (A : Type) : Type := world → outcome A * world.

Definition ret {A} (a : A) : M A := λ w, (Return a, w).
Definition raise {A} (e : exn) : M A := λ w, (Raise e, w).
Definition lift {A} (o : outcome A) : M A := λ w, (o, w).
Definition bind {A B} (m : M A) (k : A → M B) : M B :=
  λ w, match m w with
       | (Return a, w') => k a w'
       | (Raise e, w') => (Raise e, w')
       | (OutOfFuel, w') => (OutOfFuel, w')
       end.
Definition gets {A} (f : world → A) : M A := λ w, (Return (f w), w).
Definition modify (f : world → world) : M unit := λ w, (Return tt, f w).

Declare Scope py_scope.
Delimit Scope py_scope with py.
Notation "'let!' x ':=' m 'in' k" := (bind m (λ x, k))
  (at level 10, x name, m at level 100, k at level 200) : py_scope.
Notation "'let!' ' p ':=' m 'in' k" := (bind m (λ x, match x with p => k end))
  (at level 10, p pattern, m at level 100, k at level 200) : py_scope.
Notation "'do!' m 'in' k" := (bind m (λ _, k))
  (at level 10, m at level 100, k at level 200) : py_scope.
Local Open Scope py_scope.

(** [for x in l: acc = body(acc, x)] *)
Fixpoint foldM {A B} (body : B → A → M B) (l : list A) (acc : B) : M B :=
  match l with
  | [] => ret acc
  | x :: r => let! acc' := body acc x in foldM body r acc'
  end.

(** ** The [random] module *)

Module random.

(** [random.randint(a, b)]: an integer of [a..b] taken from the global
    generator; an empty range is a [ValueError]. *)
Definition randint (a b : Z) : M Z :=
  λ w, if b <? a then (Raise ValueError, w)
       else (Return (a + random_draws w (random_pos w) `mod` (b - a + 1)),
             set_random_pos (S (random_pos w)) w).

(** [random.<name>] for a function of two integers: the module has
    [randint]; a name it does not define is an [AttributeError]. *)
Definition getattr (name : string) : M (Z → Z → M Z) :=
  if decide (name = "randint") then ret randint else raise AttributeError.

End random.

(** ** [pandas] *)

(** [pd.DataFrame(rows, columns=cols)] on a list of rows. *)
Definition DataFrame (rows : list (list pyval)) (cols : list string)
  : outcome (list (list pyval)) :=
  if forallb (λ r, Nat.eqb (length r) (length cols)) rows
  then Return rows else Raise ValueError.

(** ** [class IMDBBertDataset]

    [tokenizer] is [get_tokenizer('basic_english')], kept as a parameter.
    [numpy_nan_on_empty] tells which of the two behaviours of the installed
    numpy release applies to the percentile of an empty array: the value
    [nan], or an [IndexError]. *)

Section IMDBBertDataset.

Variable tokenizer : string → list string.
Variable numpy_nan_on_empty : bool.

Definition CLS : string := "[CLS]".
Definition PAD : string := "[PAD]".
Definition SEP : string := "[SEP]".
Definition MASK : string := "[MASK]".
Definition UNK : string := "[UNK]".

Definition MASKED_INDICES_COLUMN : string := "masked_indices".
Definition TARGET_COLUMN : string := "indices".
Definition NSP_TARGET_COLUMN : string := "is_next".
Definition TOKEN_MASK_COLUMN : string := "token_mask".

Definition OPTIMAL_LENGTH_PERCENTILE : Z := 70.

(** [np.percentile(arr, q)], linear interpolation between the two order
    statistics around position [(n - 1) * q / 100]. *)
Definition np_percentile (arr : list Z) (q : Z) : outcome npfloat :=
  if (q <? 0) || (100 <? q) then Raise ValueError
  else
    let sorted := merge_sort Z.le arr in
    let n := Z.of_nat (length sorted) in
    if n =? 0 then
      (if numpy_nan_on_empty then Return NaN else Raise IndexError)
    else
      let i := ((n - 1) * q) `div` 100 in
      let r := ((n - 1) * q) `mod` 100 in
      let lo := default 0 (sorted !! Z.to_nat i) in
      let hi := default lo (sorted !! Z.to_nat (i + 1)) in
      Return (Finite (Qmake (lo * 100 + (hi - lo) * r) 100)).

(** Lines 108-110. The argument [lengths] is left as it is: the sum is a
    new list, which is the value returned. *)
Definition _update_length (sentences : list string) (lengths : list Z) : list Z :=
  let sentences_lengths :=
    (λ sentence, Z.of_nat (length (PyStr.split_ws sentence))) <$> sentences in
  lengths ++ sentences_lengths.

(** Lines 112-114. *)
Definition _find_optimal_sentence_length (lengths : list Z) : M Z :=
  let arr := lengths in
  lift (obind (np_percentile arr OPTIMAL_LENGTH_PERCENTILE) py_int).

(** A method call on the object held in [self.vocab]. *)
Definition with_vocab (f : Vocab → outcome Vocab) : M unit :=
  let! o := gets vocab in
  match o with
  | None => raise AttributeError
  | Some v => let! v' := lift (f v) in modify (set_vocab (Some v'))
  end.

(** Lines 116-126. *)
Definition _fill_vocab : M unit :=
  let! c := gets counter in
  let! v := lift (torchtext.vocab c 2) in
  do! modify (set_vocab (Some v)) in
  do! with_vocab (λ v, torchtext.insert_token v CLS 0) in
  do! with_vocab (λ v, torchtext.insert_token v PAD 1) in
  do! with_vocab (λ v, torchtext.insert_token v MASK 2) in
  do! with_vocab (λ v, torchtext.insert_token v SEP 3) in
  do! with_vocab (λ v, torchtext.insert_token v UNK 4) in
  with_vocab (λ v, Return (torchtext.set_default_index v 4)).

(** Lines 135-136, the [while] loop, given at most [fuel] passes. *)
Fixpoint redraw_while_next (fuel : nat) (sentence_len sentence_idx next_sentence_idx : Z)
  : M Z :=
  if next_sentence_idx =? sentence_idx + 1 then
    match fuel with
    | O => lift OutOfFuel
    | S fuel' =>
        let! randint := random.getattr "randint" in
        let! next_sentence_idx := randint 0 (sentence_len - 1) in
        redraw_while_next fuel' sentence_len sentence_idx next_sentence_idx
    end
  else ret next_sentence_idx.

(** Lines 128-137. The two draws of line 133 are evaluated left to right;
    the second goes through the attribute [randin] of the module. *)
Definition _select_false_nsp_sentences (fuel : nat) (sentences : list string)
  : M (string * string) :=
  let sentence_len := Z.of_nat (length sentences) in
  let! randint := random.getattr "randint" in
  let! sentence_idx := randint 0 (sentence_len - 1) in
  let! randin := random.getattr "randin" in
  let! next_sentence_idx := randin 0 (sentence_len - 1) in
  let! next_sentence_idx :=
    redraw_while_next fuel sentence_len sentence_idx next_sentence_idx in
  let! first := lift (py_getitem sentences sentence_idx) in
  let! second := lift (py_getitem sentences next_sentence_idx) in
  ret (first, second).

(** Lines 139-140. The method is declared with [self] alone: a call that
    passes positional arguments is a [TypeError]. *)
Definition _create_item (args : list pyval) : M (list pyval) :=
  match args with
  | [] => ret [PyInt 0; PyInt 0; PyInt 0]
  | _ :: _ => raise TypeError
  end.

(** Lines 77-80, the body of the first loop. The value that
    [_update_length] returns is not used, and [sentence_lens] is the same
    list after the call. *)
Definition split_review (acc : list string * list Z) (review : string)
  : M (list string * list Z) :=
  let '(sentences, sentence_lens) := acc in
  let review_sentences := PyStr.split review ". " in
  let sentences := (sentences ++ review_sentences)%list in
  let _ := _update_length review_sentences sentence_lens in
  ret (sentences, sentence_lens).

(** Lines 84-88: count the tokens of every sentence, then fill the vocab. *)
Definition count_sentence (_ : unit) (sentence : string) : M unit :=
  let sen_tokens := tokenizer sentence in
  modify (λ w, set_counter (counter_update (counter w) sen_tokens) w).

Definition create_vocabulary (sentences : list string) : M unit :=
  do! foldM count_sentence sentences tt in
  _fill_vocab.

(** Lines 95-102, the body of the loop over [range(len(review_sentences)-1)]. *)
Definition nsp_pair (fuel : nat) (sentences review_sentences : list string)
    (nsp : list (list pyval)) (i : Z) : M (list (list pyval)) :=
  let! s1 := lift (py_getitem review_sentences i) in
  let first := tokenizer s1 in
  let! s2 := lift (py_getitem review_sentences (i + 1)) in
  let second := tokenizer s2 in
  let! item := _create_item [py_tokens first; py_tokens second; PyInt 1] in
  let nsp := (nsp ++ [item])%list in
  let! '(first, second) := _select_false_nsp_sentences fuel sentences in
  let first := tokenizer first in
  let second := tokenizer second in
  let! item := _create_item [py_tokens first; py_tokens second; PyInt 0] in
  ret (nsp ++ [item])%list.

(** Lines 92-102, the body of the loop over the reviews. *)
Definition nsp_review (fuel : nat) (sentences : list string)
    (nsp : list (list pyval)) (review : string) : M (list (list pyval)) :=
  let review_sentences := PyStr.split review ". " in
  let n := Z.of_nat (length review_sentences) in
  if 1 <? n then
    foldM (nsp_pair fuel sentences review_sentences) (seqZ 0 (n - 1)) nsp
  else ret nsp.

(** Lines 91-102. *)
Definition preprocess_dataset (fuel : nat) (sentences : list string)
  : M (list (list pyval)) :=
  let! reviews := gets ds in
  foldM (nsp_review fuel sentences) reviews [].

(** Lines 71-105. [print] and [tqdm] leave no trace in the result. *)
Definition prepare_dataset (fuel : nat) : M (list (list pyval)) :=
  let! reviews := gets ds in
  let! '(sentences, sentence_lens) := foldM split_review reviews ([], []) in
  let! l := _find_optimal_sentence_length sentence_lens in
  do! modify (set_optimal_sentence_length (Some l)) in
  do! create_vocabulary sentences in
  let! nsp := preprocess_dataset fuel sentences in
  let! cols := gets columns in
  lift (DataFrame nsp cols).

(** Lines 34-63. [reviews] is the column [pd.read_csv(path)['review']]. *)
Definition __init__ (reviews : list string) (ds_from ds_to : option Z)
    (should_include_text_arg : bool) (fuel : nat) : M unit :=
  do! modify (set_ds reviews) in
  do! (if bool_decide (ds_from ≠ None) || bool_decide (ds_to ≠ None)
       then modify (λ w, set_ds (py_slice (ds w) ds_from ds_to) w)
       else ret tt) in
  do! modify (set_counter []) in
  do! modify (set_vocab None) in
  do! modify (set_optimal_sentence_length None) in
  do! modify (set_should_include_text should_include_text_arg) in
  do! modify (set_columns
        (if should_include_text_arg
         then ["masked_sentence"; MASKED_INDICES_COLUMN; "sentence";
               TARGET_COLUMN; TOKEN_MASK_COLUMN; NSP_TARGET_COLUMN]
         else [MASKED_INDICES_COLUMN; TARGET_COLUMN; TOKEN_MASK_COLUMN;
               NSP_TARGET_COLUMN])) in
  let! d := prepare_dataset fuel in
  modify (set_df (Some d)).

End IMDBBertDataset.

(** ** Predicates and inputs used by the statements *)

(** The table [stoi_] and the vector [itos_] describe the same bijection. *)
Definition vocab_wf (v : Vocab) : Prop :=
  ∀ t i, stoi_ v !! t = Some i ↔ 0 ≤ i ∧ itos_ v !! Z.to_nat i = Some t.

Definition specials : list string := [CLS; PAD; MASK; SEP; UNK].

(** The tokens that [vocab(counter, min_freq=2)] keeps, in the counter's order. *)
Definition retained (c : list (string * Z)) : list string :=
  fst <$> filter (λ kv, 2 ≤ kv.2) c.

(** The counter after the loop of lines 84-86 over [sentences]. *)
Definition corpus_counter (tokenizer : string → list string)
    (c : list (string * Z)) (sentences : list string) : list (string * Z) :=
  foldl (λ c sentence, counter_update c (tokenizer sentence)) c sentences.

(** A small tokenizer in the manner of [basic_english]: lower-case words. *)
Definition is_upper (c : ascii) : bool :=
  let n := nat_of_ascii c in ((65 <=? n) && (n <=? 90))%nat.

Definition lower_char (c : ascii) : ascii :=
  if is_upper c then ascii_of_nat (nat_of_ascii c + 32) else c.

Fixpoint lower (s : string) : string :=
  match s with
  | EmptyString => EmptyString
  | String c s' => String (lower_char c) (lower s')
  end.

Definition word_tokenizer (s : string) : list string :=
  lower <$> PyStr.split_ws s.

(** A state in which no attribute is set yet; the generator delivers
    0, 1, 2, ... *)
Definition world0 : world :=
  mkWorld [] [] None None false [] None (λ n, Z.of_nat n) 0.

(** The corpus of the specification's example. *)
Definition two_reviews : list string := ["A sent. B sent."; "C sent. D sent."].

(** The flattened list of the sentences of all reviews. *)
Definition corpus_sentences (reviews : list string) : list string :=
  flat_map (λ review, PyStr.split review ". ") reviews.

(** The exception that the percentile of an empty array ends in. *)
Definition empty_percentile_error (numpy_nan_on_empty : bool) : exn :=
  if numpy_nan_on_empty then ValueError else IndexError.

(** A generator that delivers the same raw value at every draw. *)
Definition world_const (x : Z) : world :=
  mkWorld [] [] None None false [] None (λ _, x) 0.

(** [len(row[k])], the length of the entry of a row in column [k]. *)
Definition column_len (row : list pyval) (k : nat) : outcome Z :=
  match row !! k with
  | Some v => py_len v
  | None => Raise IndexError
  end.

(** [sep.join(l)] *)
Fixpoint py_join (sep : string) (l : list string) : string :=
  match l with
  | [] => ""
  | x :: r => match r with [] => x | _ :: _ => x +:+ sep +:+ py_join sep r end
  end.

(** [sep in s] *)
Definition occurs (sep s : string) : Prop := ∃ a b, s = a +:+ sep +:+ b.

(** [c[t]] on a [Counter]: the count of a key, 0 for a missing one. *)
Fixpoint counter_get (c : list (string * Z)) (t : string) : Z :=
  match c with
  | [] => 0
  | (k, n) :: r => if decide (k = t) then n else counter_get r t
  end.

(** How often [t] is among [tokens]. *)
Definition occurrences (t : string) (tokens : list string) : Z :=
  Z.of_nat (length (filter (λ u, u = t) tokens)).

(** The tokens of all sentences, in the order of the loop of lines 84-86. *)
Definition corpus_tokens (tokenizer : string → list string)
    (sentences : list string) : list string :=
  flat_map tokenizer sentences.

(** The elements of [l] that are not in [seen], each at its first
    occurrence. *)
Fixpoint first_occurrences (seen l : list string) : list string :=
  match l with
  | [] => []
  | x :: r =>
      if decide (x ∈ seen) then first_occurrences seen r
      else x :: first_occurrences (x :: seen) r
  end.

(** The value that [random.randint(0, len - 1)] returns at the draw number
    [p] of the generator. *)
Definition draw_at (w : world) (len : Z) (p : nat) : Z :=
  0 + random_draws w p `mod` (len - 1 - 0 + 1).

(** A generator that delivers 1, 2, 3, ... *)
Definition world_succ : world :=
  mkWorld [] [] None None false [] None (λ n, Z.of_nat n + 1) 0.

(** A state whose counter holds a reserved token twice. *)
Definition world_reserved : world :=
  set_counter [("film", 3); ("[SEP]", 2)] world0.


(** ** The vocabulary *)

Section vocab_lemmas.

Implicit Types (v : Vocab) (t : string) (m : gmap string Z).

Lemma vocab_wf_empty : vocab_wf torchtext.empty.
Proof.
  intros t i. cbn. rewrite lookup_empty, lookup_nil.
  split; [done|intros [_ ?]; done].
Qed.

Lemma vocab_wf_lookup_nat v t (n : nat) :
  vocab_wf v → itos_ v !! n = Some t → stoi_ v !! t = Some (Z.of_nat n).
Proof.
  intros Hwf Hn. apply Hwf. split; [lia|]. by rewrite Nat2Z.id.
Qed.

Lemma vocab_wf_NoDup v : vocab_wf v → NoDup (itos_ v).
Proof.
  intros Hwf. apply NoDup_alt. intros a b t Ha Hb.
  apply (vocab_wf_lookup_nat _ _ _ Hwf) in Ha, Hb.
  rewrite Ha in Hb. injection Hb. lia.
Qed.

Lemma vocab_wf_elem_of v t :
  vocab_wf v → t ∈ itos_ v ↔ is_Some (stoi_ v !! t).
Proof.
  intros Hwf. split.
  - intros [n Hn]%list_elem_of_lookup. eauto using vocab_wf_lookup_nat.
  - intros [i Hi]. apply Hwf in Hi. eapply list_elem_of_lookup_2, Hi.
Qed.

Lemma contains_false v t :
  vocab_wf v → torchtext.contains v t = false ↔ t ∉ itos_ v.
Proof.
  intros Hwf. unfold torchtext.contains.
  rewrite bool_decide_eq_false, (vocab_wf_elem_of _ _ Hwf). done.
Qed.

Lemma vocab_wf_add v t :
  vocab_wf v → t ∉ itos_ v → vocab_wf (torchtext.add v t).
Proof.
  intros Hwf Hnin u i. cbn. unfold torchtext.len.
  destruct (decide (t = u)) as [->|Hne].
  - rewrite lookup_insert_eq. split.
    + intros [= <-]. split; [lia|]. rewrite Nat2Z.id.
      by rewrite lookup_app_r, Nat.sub_diag.
    + intros [Hi Hl]. f_equal.
      destruct (decide (Z.to_nat i < length (itos_ v))%nat) as [Hlt|Hge].
      * rewrite lookup_app_l in Hl by done.
        apply list_elem_of_lookup_2 in Hl. done.
      * apply lookup_lt_Some in Hl. rewrite length_app in Hl. cbn in Hl. lia.
  - rewrite lookup_insert_ne by done. rewrite (Hwf u i). split.
    + intros [Hi Hl]. split; [done|]. by apply lookup_app_l_Some.
    + intros [Hi Hl]. split; [done|].
      apply lookup_app_Some in Hl as [Hl|[Hge Hl]]; [done|].
      apply list_lookup_singleton_Some in Hl as [_ ?]. done.
Qed.

Lemma from_tokens_Return tokens : ∀ v,
  vocab_wf v → NoDup tokens → (∀ t, t ∈ tokens → t ∉ itos_ v) →
  ∃ v', torchtext.from_tokens v tokens = Return v' ∧ vocab_wf v'
        ∧ itos_ v' = (itos_ v ++ tokens)%list
        ∧ default_index_ v' = default_index_ v.
Proof.
  induction tokens as [|t r IH]; intros v Hwf Hnd Hfresh; cbn.
  - exists v. by rewrite app_nil_r.
  - apply NoDup_cons in Hnd as [Htr Hnd].
    assert (t ∉ itos_ v) as Ht by (apply Hfresh; left).
    rewrite (proj2 (contains_false v t Hwf) Ht).
    destruct (IH (torchtext.add v t)) as (v' & Hrun & Hwf' & Hitos & Hdef).
    + by apply vocab_wf_add.
    + done.
    + intros u Hu. cbn. rewrite elem_of_app, list_elem_of_singleton.
      intros [Hin| ->]; [|done]. eapply Hfresh; [right; done|done].
    + exists v'. split_and!; try done. rewrite Hitos. cbn. by rewrite <-app_assoc.
Qed.

Lemma shift_up_notin suffix : ∀ i m t,
  t ∉ suffix → torchtext.shift_up i suffix m !! t = m !! t.
Proof.
  induction suffix as [|u r IH]; intros i m t Hnin; cbn; [done|].
  apply not_elem_of_cons in Hnin as [Hne Hnin].
  rewrite IH by done. by rewrite lookup_insert_ne.
Qed.

Lemma shift_up_lookup suffix : ∀ i m t (k : nat),
  NoDup suffix → suffix !! k = Some t →
  torchtext.shift_up i suffix m !! t = Some (i + Z.of_nat k + 1).
Proof.
  induction suffix as [|u r IH]; intros i m t k Hnd Hk; [done|].
  apply NoDup_cons in Hnd as [Hur Hnd]. destruct k as [|k]; cbn in *.
  - injection Hk as ->. rewrite shift_up_notin by done.
    rewrite lookup_insert_eq. f_equal. lia.
  - rewrite (IH _ _ _ k) by done. f_equal. lia.
Qed.

Lemma insert_token_Return v token index :
  vocab_wf v → 0 ≤ index ≤ torchtext.len v → token ∉ itos_ v →
  ∃ v', torchtext.insert_token v token index = Return v' ∧ vocab_wf v'
        ∧ itos_ v' = (take (Z.to_nat index) (itos_ v)
                      ++ token :: drop (Z.to_nat index) (itos_ v))%list
        ∧ default_index_ v' = default_index_ v.
Proof.
  intros Hwf Hrange Hfresh. unfold torchtext.insert_token.
  replace ((index <? 0) || (torchtext.len v <? index)) with false
    by (symmetry; apply orb_false_iff; split; apply Z.ltb_ge; lia).
  rewrite (proj2 (contains_false v token Hwf) Hfresh).
  eexists. split; [done|]. split; [|done].
  unfold torchtext.len in Hrange.
  pose proof (vocab_wf_NoDup v Hwf) as Hnd.
  set (k := Z.to_nat index). set (l := itos_ v) in *.
  assert (length (take k l) = k) as Hlen by (rewrite length_take; lia).
  assert (NoDup (drop k l)) as Hndd.
  { rewrite <-(take_drop k l) in Hnd. by apply NoDup_app in Hnd as (_ & _ & ?). }
  intros t i. cbn. destruct (decide (token = t)) as [<-|Hne].
  - rewrite lookup_insert_eq. split.
    + intros [= <-]. split; [lia|]. fold k.
      by rewrite lookup_app_r, Hlen, Nat.sub_diag by lia.
    + intros [Hi Hl]. f_equal.
      destruct (decide (Z.to_nat i = k)) as [Heq|Hneq]; [lia|]. exfalso.
      apply Hfresh. apply lookup_app_Some in Hl as [Hl|[Hge Hl]].
      * apply lookup_take_Some in Hl as [Hl _]. by eapply list_elem_of_lookup_2.
      * rewrite Hlen in *. destruct (Z.to_nat i - k)%nat as [|j] eqn:Hj; [lia|].
        change (drop k l !! j = Some token) in Hl.
        rewrite lookup_drop in Hl. by eapply list_elem_of_lookup_2.
  - rewrite lookup_insert_ne by done. split.
    + intros Hs. destruct (decide (t ∈ drop k l)) as [Hin|Hnin].
      * apply list_elem_of_lookup in Hin as [j Hj].
        rewrite (shift_up_lookup _ _ _ _ j Hndd Hj) in Hs. injection Hs as <-.
        split; [lia|]. replace (Z.to_nat (index + Z.of_nat j + 1)) with (k + S j)%nat by lia.
        rewrite lookup_app_r, Hlen by lia. by replace (k + S j - k)%nat with (S j) by lia.
      * rewrite shift_up_notin in Hs by done. apply Hwf in Hs as [Hi Hl].
        split; [done|]. apply lookup_app_l_Some, lookup_take_Some. split; [done|].
        destruct (decide (Z.to_nat i < k)%nat); [done|]. exfalso. apply Hnin.
        apply list_elem_of_lookup. exists (Z.to_nat i - k)%nat.
        rewrite lookup_drop. by replace (k + (Z.to_nat i - k))%nat with (Z.to_nat i) by lia.
    + intros [Hi Hl]. apply lookup_app_Some in Hl as [Hl|[Hge Hl]].
      * apply lookup_take_Some in Hl as [Hl Hlt].
        rewrite shift_up_notin.
        { apply Hwf. done. }
        intros [j Hj]%list_elem_of_lookup. rewrite lookup_drop in Hj.
        pose proof (NoDup_lookup _ _ _ _ Hnd Hl Hj). lia.
      * rewrite Hlen in *. destruct (Z.to_nat i - k)%nat as [|j] eqn:Hj.
        { by injection Hl. }
        change (drop k l !! j = Some t) in Hl.
        rewrite (shift_up_lookup _ _ _ _ j Hndd Hl). f_equal. lia.
Qed.

Lemma getitem_elem_of v t (n : nat) :
  vocab_wf v → itos_ v !! n = Some t →
  torchtext.getitem v t = Return (Z.of_nat n).
Proof.
  intros Hwf Hn. unfold torchtext.getitem.
  by rewrite (vocab_wf_lookup_nat _ _ _ Hwf Hn).
Qed.

Lemma getitem_not_elem_of v t d :
  vocab_wf v → default_index_ v = Some d → t ∉ itos_ v →
  torchtext.getitem v t = Return d.
Proof.
  intros Hwf Hd Hnin. unfold torchtext.getitem.
  rewrite (vocab_wf_elem_of _ _ Hwf) in Hnin.
  destruct (stoi_ v !! t) eqn:E; [by destruct Hnin|]. by rewrite Hd.
Qed.

Lemma lookup_token_elem_of v t (n : nat) :
  itos_ v !! n = Some t → torchtext.lookup_token v (Z.of_nat n) = Return t.
Proof.
  intros Hn. unfold torchtext.lookup_token, torchtext.len.
  pose proof (lookup_lt_Some _ _ _ Hn).
  replace ((Z.of_nat n <? 0) || (Z.of_nat (length (itos_ v)) <=? Z.of_nat n)) with false
    by (symmetry; apply orb_false_iff; split; [apply Z.ltb_ge|apply Z.leb_gt]; lia).
  by rewrite Nat2Z.id, Hn.
Qed.

End vocab_lemmas.

(** ** The counter *)

Section counter_lemmas.

Implicit Types (c : list (string * Z)) (t : string).

Lemma counter_incr_keys c t :
  fst <$> counter_incr c t
  = if decide (t ∈ fst <$> c) then fst <$> c else ((fst <$> c) ++ [t])%list.
Proof.
  induction c as [|[k n] r IH]; cbn.
  - by rewrite decide_False by apply not_elem_of_nil.
  - destruct (decide (k = t)) as [->|Hne]; cbn.
    + by rewrite decide_True by left.
    + rewrite IH. destruct (decide (t ∈ fst <$> r)) as [Hin|Hnin].
      * by rewrite decide_True by (by right).
      * rewrite decide_False; [done|]. apply not_elem_of_cons. split; [done|done].
Qed.

Lemma counter_incr_NoDup c t :
  NoDup (fst <$> c) → NoDup (fst <$> counter_incr c t).
Proof.
  intros Hnd. rewrite counter_incr_keys. case_decide; [done|].
  apply NoDup_app. split_and!; [done| |apply NoDup_singleton].
  intros x Hx ->%list_elem_of_singleton. done.
Qed.

Lemma counter_incr_key c t k :
  k ∈ fst <$> counter_incr c t → k = t ∨ k ∈ fst <$> c.
Proof.
  rewrite counter_incr_keys. case_decide; [by right|].
  rewrite elem_of_app, list_elem_of_singleton. tauto.
Qed.

Lemma counter_update_NoDup tokens : ∀ c,
  NoDup (fst <$> c) → NoDup (fst <$> counter_update c tokens).
Proof.
  unfold counter_update.
  induction tokens as [|t r IH]; intros c Hnd; cbn; [done|].
  by apply IH, counter_incr_NoDup.
Qed.

Lemma counter_update_key tokens : ∀ c k,
  k ∈ fst <$> counter_update c tokens → k ∈ tokens ∨ k ∈ fst <$> c.
Proof.
  unfold counter_update.
  induction tokens as [|t r IH]; intros c k Hk; cbn in *; [by right|].
  apply IH in Hk as [Hk|Hk]; [left; by right|].
  apply counter_incr_key in Hk as [->|Hk]; [left; by left|by right].
Qed.

Lemma corpus_counter_NoDup tokenizer sentences : ∀ c,
  NoDup (fst <$> c) → NoDup (fst <$> corpus_counter tokenizer c sentences).
Proof.
  unfold corpus_counter.
  induction sentences as [|s r IH]; intros c Hnd; cbn; [done|].
  by apply IH, counter_update_NoDup.
Qed.

Lemma corpus_counter_key tokenizer sentences : ∀ c k,
  k ∈ fst <$> corpus_counter tokenizer c sentences →
  (∃ s, s ∈ sentences ∧ k ∈ tokenizer s) ∨ k ∈ fst <$> c.
Proof.
  unfold corpus_counter.
  induction sentences as [|s r IH]; intros c k Hk; cbn in *; [by right|].
  apply IH in Hk as [(s' & Hs' & Hk)|Hk].
  - left. exists s'. split; [by right|done].
  - apply counter_update_key in Hk as [Hk|Hk]; [|by right].
    left. exists s. split; [by left|done].
Qed.

Lemma retained_NoDup c : NoDup (fst <$> c) → NoDup (retained c).
Proof.
  intros Hnd. eapply sublist_NoDup; [exact Hnd|].
  unfold retained. apply fmap_sublist, sublist_filter.
Qed.

Lemma retained_key c t : t ∈ retained c → t ∈ fst <$> c.
Proof.
  unfold retained. intros ([k n] & -> & Hin)%list_elem_of_fmap.
  apply list_elem_of_filter in Hin as [_ Hin].
  by apply (list_elem_of_fmap_2 fst) in Hin.
Qed.

Lemma retained_count c t :
  t ∈ retained c ↔ ∃ n, (t, n) ∈ c ∧ 2 ≤ n.
Proof.
  unfold retained. rewrite list_elem_of_fmap. split.
  - intros ([k n] & -> & [Hn Hin]%list_elem_of_filter). by exists n.
  - intros (n & Hin & Hn). exists (t, n). split; [done|].
    by apply list_elem_of_filter.
Qed.

End counter_lemmas.

(** ** Running the monad *)

Lemma bind_Return {A B} (m : M A) (k : A → M B) w a w' :
  m w = (Return a, w') → bind m k w = k a w'.
Proof. intros H. unfold bind. by rewrite H. Qed.

Lemma bind_Raise {A B} (m : M A) (k : A → M B) w e w' :
  m w = (Raise e, w') → bind m k w = (Raise e, w').
Proof. intros H. unfold bind. by rewrite H. Qed.

Lemma with_vocab_Return f v v' w :
  vocab w = Some v → f v = Return v' →
  with_vocab f w = (Return tt, set_vocab (Some v') w).
Proof.
  intros Hv Hf. unfold with_vocab, bind, gets, lift, modify.
  by rewrite Hv, Hf.
Qed.

Ltac with_vocab_step H :=
  erewrite (bind_Return (with_vocab _));
  [|eapply with_vocab_Return; [reflexivity|exact H]].

Ltac norm_itos H :=
  repeat match type of H with
         | context [Z.to_nat ?k] =>
             let n := eval vm_compute in (Z.to_nat k) in
             change (Z.to_nat k) with n in H
         end;
  cbn [take drop app] in H; rewrite take_0 in H; cbn [take drop app] in H.

(** ** [_fill_vocab] on any counter that holds no special token *)

Lemma specials_elem t :
  t ∈ specials ↔ t = CLS ∨ t = PAD ∨ t = MASK ∨ t = SEP ∨ t = UNK.
Proof.
  unfold specials. rewrite !elem_of_cons, elem_of_nil. tauto.
Qed.

Lemma fill_vocab_Return w :
  NoDup (fst <$> counter w) →
  (∀ t, t ∈ retained (counter w) → t ∉ specials) →
  ∃ v, _fill_vocab w = (Return tt, set_vocab (Some v) w) ∧ vocab_wf v
       ∧ itos_ v = (specials ++ retained (counter w))%list
       ∧ default_index_ v = Some 4.
Proof.
  intros Hnd Hsp.
  assert (∀ t, t ∈ specials → t ∉ retained (counter w)) as Hfresh
    by (intros t Ht Hr; by apply (Hsp t)).
  destruct (from_tokens_Return (retained (counter w)) torchtext.empty)
    as (v0 & E0 & Hwf0 & Hi0 & Hd0);
    [apply vocab_wf_empty|by apply retained_NoDup|intros ? _; apply not_elem_of_nil|].
  cbn in Hi0.
  destruct (insert_token_Return v0 CLS 0) as (v1 & E1 & Hwf1 & Hi1 & Hd1);
    [done|unfold torchtext.len; lia| |].
  { rewrite Hi0. apply Hfresh, specials_elem. tauto. }
  rewrite Hi0 in Hi1. norm_itos Hi1.
  destruct (insert_token_Return v1 PAD 1) as (v2 & E2 & Hwf2 & Hi2 & Hd2);
    [done|unfold torchtext.len; rewrite Hi1; cbn [length]; lia| |].
  { rewrite Hi1, not_elem_of_cons. split; [done|].
    apply Hfresh, specials_elem. tauto. }
  rewrite Hi1 in Hi2. norm_itos Hi2.
  destruct (insert_token_Return v2 MASK 2) as (v3 & E3 & Hwf3 & Hi3 & Hd3);
    [done|unfold torchtext.len; rewrite Hi2; cbn [length]; lia| |].
  { rewrite Hi2, !not_elem_of_cons. split_and!; [done|done|].
    apply Hfresh, specials_elem. tauto. }
  rewrite Hi2 in Hi3. norm_itos Hi3.
  destruct (insert_token_Return v3 SEP 3) as (v4 & E4 & Hwf4 & Hi4 & Hd4);
    [done|unfold torchtext.len; rewrite Hi3; cbn [length]; lia| |].
  { rewrite Hi3, !not_elem_of_cons. split_and!; [done|done|done|].
    apply Hfresh, specials_elem. tauto. }
  rewrite Hi3 in Hi4. norm_itos Hi4.
  destruct (insert_token_Return v4 UNK 4) as (v5 & E5 & Hwf5 & Hi5 & Hd5);
    [done|unfold torchtext.len; rewrite Hi4; cbn [length]; lia| |].
  { rewrite Hi4, !not_elem_of_cons. split_and!; [done|done|done|done|].
    apply Hfresh, specials_elem. tauto. }
  rewrite Hi4 in Hi5. norm_itos Hi5.
  exists (torchtext.set_default_index v5 4). split_and!; [|done|done|done].
  unfold _fill_vocab.
  rewrite (bind_Return (gets counter) _ w (counter w) w) by done.
  unfold torchtext.vocab. fold (retained (counter w)).
  rewrite (bind_Return (lift _) _ w v0 w) by (unfold lift; by rewrite E0).
  rewrite (bind_Return (modify _) _ w tt (set_vocab (Some v0) w)) by done.
  with_vocab_step E1. with_vocab_step E2. with_vocab_step E3.
  with_vocab_step E4. with_vocab_step E5.
  by erewrite with_vocab_Return.
Qed.

Lemma count_sentences_run tokenizer sentences : ∀ w,
  foldM (count_sentence tokenizer) sentences tt w
  = (Return tt, set_counter (corpus_counter tokenizer (counter w) sentences) w).
Proof.
  induction sentences as [|s r IH]; intros w; cbn.
  - by destruct w.
  - unfold bind, count_sentence at 1, modify. by rewrite IH.
Qed.

(** ** The frozen vocabulary of any corpus *)

Section vocabulary.

Variable tokenizer : string → list string.

(** [basic_english] lower-cases its input, so none of its tokens is one of
    the five reserved strings, which are written in capitals. *)
Hypothesis tokenizer_no_special : ∀ s t, t ∈ tokenizer s → t ∉ specials.

Lemma create_vocabulary_Return sentences w :
  counter w = [] →
  ∃ v, create_vocabulary tokenizer sentences w
       = (Return tt,
          set_vocab (Some v)
            (set_counter (corpus_counter tokenizer [] sentences) w))
       ∧ vocab_wf v
       ∧ itos_ v = (specials ++ retained (corpus_counter tokenizer [] sentences))%list
       ∧ default_index_ v = Some 4.
Proof.
  intros Hc. set (c := corpus_counter tokenizer [] sentences).
  destruct (fill_vocab_Return (set_counter c w)) as (v & Hrun & Hwf & Hi & Hd).
  - cbn. apply corpus_counter_NoDup. constructor.
  - cbn. intros t Ht%retained_key%corpus_counter_key.
    destruct Ht as [(s & _ & Ht)|Ht]; [by eapply tokenizer_no_special|].
    by apply elem_of_nil in Ht.
  - exists v. split_and!; try done.
    unfold create_vocabulary.
    erewrite bind_Return by apply count_sentences_run.
    rewrite Hc. exact Hrun.
Qed.

(** C1. For any corpus, once [_fill_vocab] has run on the counter of its
    sentences, [CLS], [PAD], [MASK], [SEP] and [UNK] have the indices 0, 1,
    2, 3 and 4 (and these indices hold exactly these tokens), every other
    token of the vocabulary has an index of at least 5, and a token that is
    not in the vocabulary is looked up as 4, the index of [UNK]. *)
Theorem special_tokens_fixed_indices (sentences : list string) (w : world) :
  counter w = [] →
  ∃ v w', create_vocabulary tokenizer sentences w = (Return tt, w')
    ∧ vocab w' = Some v
    ∧ (torchtext.getitem v CLS = Return 0 ∧ torchtext.getitem v PAD = Return 1
       ∧ torchtext.getitem v MASK = Return 2 ∧ torchtext.getitem v SEP = Return 3
       ∧ torchtext.getitem v UNK = Return 4)
    ∧ (torchtext.lookup_token v 0 = Return CLS
       ∧ torchtext.lookup_token v 1 = Return PAD
       ∧ torchtext.lookup_token v 2 = Return MASK
       ∧ torchtext.lookup_token v 3 = Return SEP
       ∧ torchtext.lookup_token v 4 = Return UNK)
    ∧ (∀ t, t ∈ itos_ v → t ∉ specials →
            ∃ i, torchtext.getitem v t = Return i ∧ 5 ≤ i)
    ∧ (∀ t, t ∉ itos_ v → torchtext.getitem v t = Return 4).
Proof.
  intros Hc.
  destruct (create_vocabulary_Return sentences w Hc) as (v & Hrun & Hwf & Hi & Hd).
  exists v. eexists. split; [exact Hrun|]. split; [done|].
  assert (∀ (n : nat) t, specials !! n = Some t → itos_ v !! n = Some t) as Hsp.
  { intros n t Hn. rewrite Hi. by apply lookup_app_l_Some. }
  split_and!.
  - by apply (getitem_elem_of v CLS 0 Hwf), Hsp.
  - by apply (getitem_elem_of v PAD 1 Hwf), Hsp.
  - by apply (getitem_elem_of v MASK 2 Hwf), Hsp.
  - by apply (getitem_elem_of v SEP 3 Hwf), Hsp.
  - by apply (getitem_elem_of v UNK 4 Hwf), Hsp.
  - by apply (lookup_token_elem_of v CLS 0), Hsp.
  - by apply (lookup_token_elem_of v PAD 1), Hsp.
  - by apply (lookup_token_elem_of v MASK 2), Hsp.
  - by apply (lookup_token_elem_of v SEP 3), Hsp.
  - by apply (lookup_token_elem_of v UNK 4), Hsp.
  - intros t [n Hn]%list_elem_of_lookup Hns.
    exists (Z.of_nat n). split; [by apply getitem_elem_of|].
    rewrite Hi in Hn. apply lookup_app_Some in Hn as [Hn|[Hge _]].
    + by apply list_elem_of_lookup_2 in Hn.
    + cbn in Hge. lia.
  - intros t Ht. by apply getitem_not_elem_of.
Qed.

(** C8. For any corpus, every token of the frozen vocabulary is mapped to
    an index that [lookup_token] maps back to that token; every token that
    is not in the vocabulary, be it counted less than twice or never seen,
    is mapped to 4, the index at which [lookup_token] gives [UNK]. *)
Theorem vocab_round_trip (sentences : list string) (w : world) :
  counter w = [] →
  ∃ v w', create_vocabulary tokenizer sentences w = (Return tt, w')
    ∧ vocab w' = Some v
    ∧ (∀ t, t ∈ itos_ v →
            ∃ i, torchtext.getitem v t = Return i
                 ∧ torchtext.lookup_token v i = Return t)
    ∧ (∀ t, t ∉ itos_ v → torchtext.getitem v t = Return 4)
    ∧ (∀ t, t ∉ specials → (∀ n, (t, n) ∈ counter w' → n < 2) →
            torchtext.getitem v t = Return 4)
    ∧ torchtext.getitem v UNK = Return 4
    ∧ torchtext.lookup_token v 4 = Return UNK.
Proof.
  intros Hc.
  destruct (create_vocabulary_Return sentences w Hc) as (v & Hrun & Hwf & Hi & Hd).
  exists v. eexists. split; [exact Hrun|]. split; [done|].
  assert (itos_ v !! 4%nat = Some UNK) as Hunk by (by rewrite Hi).
  split_and!.
  - intros t [n Hn]%list_elem_of_lookup. exists (Z.of_nat n).
    split; [by apply getitem_elem_of|by apply lookup_token_elem_of].
  - intros t Ht. by apply getitem_not_elem_of.
  - intros t Hns Hlow. apply getitem_not_elem_of; [done|done|].
    rewrite Hi, elem_of_app. intros [Hin|Hin]; [done|].
    apply retained_count in Hin as (n & Hin & Hn).
    specialize (Hlow n Hin). lia.
  - by apply (getitem_elem_of v UNK 4 Hwf).
  - by apply (lookup_token_elem_of v UNK 4).
Qed.

End vocabulary.

Lemma lower_char_not_upper c : is_upper (lower_char c) = false.
Proof. by destruct c as [[] [] [] [] [] [] [] []]. Qed.

Lemma lower_not_special u : lower u ∉ specials.
Proof.
  intros H%specials_elem.
  destruct u as [|c1 [|c2 u]]; cbn in H;
    [by destruct H as [?|[?|[?|[?|?]]]].. |].
  pose proof (lower_char_not_upper c2) as Hc2.
  destruct H as [H|[H|[H|[H|H]]]]; injection H as _ H _; by rewrite H in Hc2.
Qed.

Lemma word_tokenizer_no_special s t : t ∈ word_tokenizer s → t ∉ specials.
Proof.
  unfold word_tokenizer. intros (u & -> & _)%list_elem_of_fmap.
  apply lower_not_special.
Qed.

(** ** The first pass and the sequence-length estimator *)

Lemma split_reviews_run reviews : ∀ sentences sentence_lens w,
  foldM split_review reviews (sentences, sentence_lens) w
  = (Return ((sentences ++ corpus_sentences reviews)%list, sentence_lens), w).
Proof.
  induction reviews as [|review r IH]; intros sentences sentence_lens w; cbn.
  - by rewrite app_nil_r.
  - unfold bind, split_review at 1, ret. rewrite IH. by rewrite <-app_assoc.
Qed.

Lemma find_optimal_empty nan w :
  _find_optimal_sentence_length nan [] w = (Raise (empty_percentile_error nan), w).
Proof. by destruct nan. Qed.

Lemma prepare_dataset_Raise tokenizer nan fuel w :
  prepare_dataset tokenizer nan fuel w = (Raise (empty_percentile_error nan), w).
Proof.
  unfold prepare_dataset.
  rewrite (bind_Return (gets ds) _ w (ds w) w) by done. cbv beta.
  erewrite bind_Return by apply split_reviews_run. cbv beta iota.
  by erewrite bind_Raise by apply find_optimal_empty.
Qed.

(** The constructor ends in the same exception for every column of reviews
    and every slice of it. *)
Lemma init_Raise tokenizer nan reviews ds_from ds_to text fuel w :
  fst (__init__ tokenizer nan reviews ds_from ds_to text fuel w)
  = Raise (empty_percentile_error nan).
Proof.
  cbv beta iota delta [__init__ bind modify ret].
  destruct (bool_decide _ || bool_decide _); cbv beta iota;
    by rewrite prepare_dataset_Raise.
Qed.

(** C3 (the code departs from it). Whatever the corpus, the list of word
    counts that reaches the estimator is empty, because the list returned
    by [_update_length] is dropped: [prepare_dataset] ends in the exception
    of the percentile of an empty array and [optimal_sentence_length] is
    never assigned.  On the two reviews of the example the word counts
    [_update_length] computes are 2, 2, 2, 2, whose 70th percentile is 2. *)
Theorem optimal_length_never_computed tokenizer nan fuel (w : world) :
  prepare_dataset tokenizer nan fuel w = (Raise (empty_percentile_error nan), w)
  ∧ (∀ reviews, fst (foldM split_review reviews ([], []) w)
                = Return (corpus_sentences reviews, []))
  ∧ _update_length (corpus_sentences two_reviews) [] = [2; 2; 2; 2]
  ∧ _find_optimal_sentence_length nan [2; 2; 2; 2] w = (Return 2, w).
Proof.
  split_and!.
  - apply prepare_dataset_Raise.
  - intros reviews. by rewrite split_reviews_run.
  - reflexivity.
  - by destruct nan.
Qed.

(** C7 (amended). When the list of word counts is empty, the estimator
    raises the built-in exception of the percentile computation, an
    [IndexError], or the [ValueError] of [int(nan)]; it is not a
    [ConfigurationError], a class the module does not have.  On an empty
    corpus [prepare_dataset] stops with that exception before counting
    tokens, filling the vocabulary or drawing pairs: the state is as it was. *)
Theorem empty_lengths_raise_builtin tokenizer nan fuel (w : world) :
  _find_optimal_sentence_length nan [] w = (Raise (empty_percentile_error nan), w)
  ∧ empty_percentile_error nan ≠ ConfigurationError
  ∧ (ds w = [] →
     prepare_dataset tokenizer nan fuel w = (Raise (empty_percentile_error nan), w)).
Proof.
  split_and!.
  - apply find_optimal_empty.
  - by destruct nan.
  - intros _. apply prepare_dataset_Raise.
Qed.

(** ** Negative-pair selection *)

Lemma randint_Return a b w :
  a ≤ b →
  random.randint a b w
  = (Return (a + random_draws w (random_pos w) `mod` (b - a + 1)),
     set_random_pos (S (random_pos w)) w).
Proof.
  intros Hab. unfold random.randint.
  by replace (b <? a) with false by (symmetry; apply Z.ltb_ge; lia).
Qed.

Lemma randint_Raise a b w :
  b < a → random.randint a b w = (Raise ValueError, w).
Proof.
  intros Hab. unfold random.randint.
  by replace (b <? a) with true by (symmetry; apply Z.ltb_lt; lia).
Qed.

Lemma redraw_while_next_O len idx next w :
  redraw_while_next 0 len idx next w
  = if next =? idx + 1 then (OutOfFuel, w) else (Return next, w).
Proof. cbn. by destruct (next =? idx + 1). Qed.

Lemma redraw_while_next_S fuel len idx next w :
  redraw_while_next (S fuel) len idx next w
  = if next =? idx + 1
    then bind (random.randint 0 (len - 1))
              (λ n, redraw_while_next fuel len idx n) w
    else (Return next, w).
Proof. cbn [redraw_while_next]. by destruct (next =? idx + 1). Qed.

(** The loop of lines 135-136 leaves only with an index that is not the
    successor of [sentence_idx]. *)
Lemma redraw_while_next_not_successor fuel : ∀ len idx next w n w',
  redraw_while_next fuel len idx next w = (Return n, w') → n ≠ idx + 1.
Proof.
  induction fuel as [|fuel IH]; intros len idx next w n w'.
  - rewrite redraw_while_next_O. destruct (next =? idx + 1) eqn:E; [done|].
    intros [= <- _]. by apply Z.eqb_neq.
  - rewrite redraw_while_next_S. destruct (next =? idx + 1) eqn:E.
    + unfold bind.
      destruct (random.randint 0 (len - 1) w) as [[m| |] w1]; try done.
      apply IH.
    + intros [= <- _]. by apply Z.eqb_neq.
Qed.

Lemma redraw_while_next_const cap : ∀ len idx w,
  0 ≤ idx → idx + 1 < len → (∀ n, random_draws w n = idx + 1) →
  fst (redraw_while_next cap len idx (idx + 1) w) = OutOfFuel.
Proof.
  induction cap as [|cap IH]; intros len idx w Hidx Hlen Hw.
  - by rewrite redraw_while_next_O, Z.eqb_refl.
  - rewrite redraw_while_next_S, Z.eqb_refl.
    erewrite bind_Return by (apply randint_Return; lia). rewrite Hw.
    replace (0 + (idx + 1) `mod` (len - 1 - 0 + 1)) with (idx + 1)
      by (rewrite Z.mod_small; lia).
    by apply IH.
Qed.

Lemma select_false_nsp_nonempty fuel sentences w :
  sentences ≠ [] →
  _select_false_nsp_sentences fuel sentences w
  = (Raise AttributeError, set_random_pos (S (random_pos w)) w).
Proof.
  intros Hne. unfold _select_false_nsp_sentences.
  rewrite (bind_Return (random.getattr "randint") _ w random.randint w) by done.
  erewrite bind_Return
    by (apply randint_Return; destruct sentences; [done|cbn [length]; lia]).
  by erewrite bind_Raise.
Qed.

Lemma select_false_nsp_empty fuel w :
  _select_false_nsp_sentences fuel [] w = (Raise ValueError, w).
Proof. reflexivity. Qed.

(** C5 (the code departs from it). On every non-empty list of sentences
    the selection of a negative pair raises [AttributeError] at the second
    draw of line 133, [random.randin], after one draw from the generator: no
    pair of sentences is returned. *)
Theorem select_false_nsp_raises (fuel : nat) (sentences : list string) (w : world) :
  sentences ≠ [] →
  _select_false_nsp_sentences fuel sentences w
  = (Raise AttributeError, set_random_pos (S (random_pos w)) w).
Proof. apply select_false_nsp_nonempty. Qed.

(** C6 (amended). The selection has no cap on its redraws and raises no
    [DataError]: for every number of passes there is a state of the
    generator on which the loop of lines 135-136 has not left after that
    many passes, and on an empty list of sentences the first draw,
    [random.randint(0, -1)], raises [ValueError]. *)
Theorem redraw_has_no_retry_cap :
  (∀ (cap : nat) len idx, 0 ≤ idx → idx + 1 < len →
     fst (redraw_while_next cap len idx (idx + 1) (world_const (idx + 1)))
     = OutOfFuel)
  ∧ (∀ fuel sentences w,
       fst (_select_false_nsp_sentences fuel sentences w) ≠ Raise DataError)
  ∧ (∀ fuel w, _select_false_nsp_sentences fuel [] w = (Raise ValueError, w)).
Proof.
  split_and!.
  - intros cap len idx Hidx Hlen. by apply redraw_while_next_const.
  - intros fuel sentences w. destruct (decide (sentences = [])) as [->|Hne].
    + by rewrite select_false_nsp_empty.
    + by rewrite select_false_nsp_nonempty.
  - apply select_false_nsp_empty.
Qed.

Lemma redraw_while_next_ambient fuel : ∀ len idx next w1 w2,
  (∀ n, random_draws w1 (random_pos w1 + n) = random_draws w2 (random_pos w2 + n)) →
  fst (redraw_while_next fuel len idx next w1)
  = fst (redraw_while_next fuel len idx next w2).
Proof.
  induction fuel as [|fuel IH]; intros len idx next w1 w2 Hw.
  - rewrite !redraw_while_next_O. by destruct (next =? idx + 1).
  - rewrite !redraw_while_next_S. destruct (next =? idx + 1); [|done].
    destruct (decide (0 ≤ len - 1)) as [Hlen|Hlen].
    + erewrite !bind_Return by (by apply randint_Return).
      pose proof (Hw 0%nat) as H0. rewrite !Nat.add_0_r in H0. rewrite H0.
      apply IH. intros n. cbn. rewrite <-!Nat.add_succ_r. apply Hw.
    + by erewrite !bind_Raise by (apply randint_Raise; lia).
Qed.

(** C9 (amended). [__init__] and the selection take no seed and no
    generator: the selection draws from the process-global generator of
    [random], which a call on a non-empty list of sentences advances, and
    the outcome of the redraw loop is a function of its arguments and of the
    values that this ambient generator delivers from its position on. *)
Theorem sampler_reads_ambient_generator :
  (∀ fuel sentences w, sentences ≠ [] →
     (random_pos w
      < random_pos (snd (_select_false_nsp_sentences fuel sentences w)))%nat)
  ∧ (∀ fuel len idx next w1 w2,
       (∀ n, random_draws w1 (random_pos w1 + n)
             = random_draws w2 (random_pos w2 + n)) →
       fst (redraw_while_next fuel len idx next w1)
       = fst (redraw_while_next fuel len idx next w2)).
Proof.
  split.
  - intros fuel sentences w Hne. rewrite select_false_nsp_nonempty by done.
    cbn. lia.
  - intros. by apply redraw_while_next_ambient.
Qed.

(** ** Building the rows *)

(** C2 (amended). A row returned by [_create_item] is the list [0, 0, 0]
    whatever the state (optimal length and vocabulary included): its
    entries are integers, of which [len] is a [TypeError], and no sequence
    of tokens, padded or truncated, is built. *)
Theorem create_item_constant_row (args : list pyval) (w w' : world)
    (row : list pyval) :
  _create_item args w = (Return row, w') →
  row = [PyInt 0; PyInt 0; PyInt 0] ∧ w' = w
  ∧ (∀ k, (k < 3)%nat → column_len row k = Raise TypeError).
Proof.
  destruct args as [|a args]; [|discriminate].
  intros [= <- <-]. split_and!; [done|done|].
  intros [|[|[|k]]] Hk; (done || lia).
Qed.

Lemma create_item_args_Raise a args w :
  _create_item (a :: args) w = (Raise TypeError, w).
Proof. reflexivity. Qed.

(** ** The second pass *)

Lemma py_getitem_lookup {A} (l : list A) (i : nat) x :
  l !! i = Some x → py_getitem l (Z.of_nat i) = Return x.
Proof.
  intros Hi. pose proof (lookup_lt_Some _ _ _ Hi). unfold py_getitem.
  replace (Z.of_nat i <? 0) with false by (symmetry; apply Z.ltb_ge; lia).
  replace ((Z.of_nat i <? 0) || (Z.of_nat (length l) <=? Z.of_nat i)) with false
    by (symmetry; apply orb_false_iff; split; [apply Z.ltb_ge|apply Z.leb_gt]; lia).
  by rewrite Nat2Z.id, Hi.
Qed.

Lemma nsp_pair_0_Raise tokenizer fuel sentences review_sentences nsp w :
  (1 < length review_sentences)%nat →
  nsp_pair tokenizer fuel sentences review_sentences nsp 0 w = (Raise TypeError, w).
Proof.
  destruct review_sentences as [|s1 [|s2 r]]; cbn [length]; [lia..|].
  intros _. unfold nsp_pair.
  erewrite (bind_Return (lift _))
    by (unfold lift; by rewrite (py_getitem_lookup _ 0 s1)).
  cbv beta zeta.
  erewrite (bind_Return (lift _))
    by (unfold lift; by rewrite (py_getitem_lookup _ 1 s2)).
  reflexivity.
Qed.

Lemma nsp_review_cases tokenizer fuel sentences nsp review w :
  nsp_review tokenizer fuel sentences nsp review w
  = if bool_decide (1 < length (PyStr.split review ". "))%nat
    then (Raise TypeError, w) else (Return nsp, w).
Proof.
  unfold nsp_review. set (rs := PyStr.split review ". ").
  case_bool_decide as Hlen.
  - replace (1 <? Z.of_nat (length rs)) with true
      by (symmetry; apply Z.ltb_lt; lia).
    rewrite seqZ_cons by lia. cbn [foldM].
    by erewrite bind_Raise by (by apply nsp_pair_0_Raise).
  - by replace (1 <? Z.of_nat (length rs)) with false
      by (symmetry; apply Z.ltb_ge; lia).
Qed.

Lemma nsp_reviews_run tokenizer fuel sentences reviews : ∀ nsp w,
  foldM (nsp_review tokenizer fuel sentences) reviews nsp w
  = if bool_decide (Exists (λ review, 1 < length (PyStr.split review ". "))%nat reviews)
    then (Raise TypeError, w) else (Return nsp, w).
Proof.
  induction reviews as [|review r IH]; intros nsp w; cbn [foldM].
  - rewrite bool_decide_eq_false_2; [done|]. by intros ?%Exists_nil.
  - unfold bind. rewrite nsp_review_cases.
    destruct (decide (1 < length (PyStr.split review ". "))%nat) as [Hlen|Hlen].
    + rewrite (bool_decide_eq_true_2 (1 < _)%nat) by done.
      rewrite (bool_decide_eq_true_2 (Exists _ _)); [done|]. by left.
    + rewrite (bool_decide_eq_false_2 (1 < _)%nat) by done.
      rewrite IH. apply (f_equal (λ b : bool, if b then _ else _)).
      apply bool_decide_ext. rewrite Exists_cons. tauto.
Qed.

(** C4 (the code departs from it). As soon as one review splits into two
    or more sentences, the second pass raises [TypeError] at the first call
    [_create_item(first, second, 1)]: no example, positive or negative, is
    appended for that review, and the state is as it was. *)
Theorem two_sentence_review_raises tokenizer (fuel : nat)
    (sentences : list string) (w : world) :
  Exists (λ review, 1 < length (PyStr.split review ". "))%nat (ds w) →
  preprocess_dataset tokenizer fuel sentences w = (Raise TypeError, w).
Proof.
  intros Hex. unfold preprocess_dataset.
  rewrite (bind_Return (gets ds) _ w (ds w) w) by done. cbv beta.
  rewrite nsp_reviews_run. by rewrite bool_decide_eq_true_2.
Qed.

(** C10 (the code departs from it). The only list of examples that the
    second pass ever returns is the empty one, and it returns it only when
    no review has two sentences: there is no example at position 0 or 1
    whose label could be read. *)
Theorem preprocess_returns_no_example tokenizer (fuel : nat)
    (sentences : list string) (w w' : world) (nsp : list (list pyval)) :
  preprocess_dataset tokenizer fuel sentences w = (Return nsp, w') →
  nsp = [] ∧ w' = w
  ∧ Forall (λ review, length (PyStr.split review ". ") ≤ 1)%nat (ds w).
Proof.
  unfold preprocess_dataset.
  rewrite (bind_Return (gets ds) _ w (ds w) w) by done. cbv beta.
  rewrite nsp_reviews_run. case_bool_decide as Hex; [discriminate|].
  intros [= <- <-]. split_and!; [done|done|].
  apply not_Exists_Forall in Hex; [|apply _].
  eapply Forall_impl; [exact Hex|]. cbn. lia.
Qed.

(** ** The statements at concrete inputs *)

Lemma special_tokens_fixed_indices_witness :
  counter world0 = []
  ∧ ∃ v w', create_vocabulary word_tokenizer (corpus_sentences two_reviews) world0
            = (Return tt, w')
    ∧ vocab w' = Some v
    ∧ torchtext.getitem v CLS = Return 0 ∧ torchtext.getitem v PAD = Return 1
    ∧ torchtext.getitem v MASK = Return 2 ∧ torchtext.getitem v SEP = Return 3
    ∧ torchtext.getitem v UNK = Return 4
    ∧ (∀ t, t ∉ itos_ v → torchtext.getitem v t = Return 4).
Proof.
  split; [reflexivity|].
  destruct (special_tokens_fixed_indices word_tokenizer word_tokenizer_no_special
              (corpus_sentences two_reviews) world0 eq_refl)
    as (v & w' & Hrun & Hv & (H0 & H1 & H2 & H3 & H4) & _ & _ & Habs).
  exists v, w'. repeat (split; [assumption|]). exact Habs.
Defined.

Lemma vocab_round_trip_witness :
  counter world0 = []
  ∧ ∃ v w', create_vocabulary word_tokenizer (corpus_sentences two_reviews) world0
            = (Return tt, w')
    ∧ vocab w' = Some v
    ∧ (∀ t, t ∈ itos_ v →
            ∃ i, torchtext.getitem v t = Return i
                 ∧ torchtext.lookup_token v i = Return t)
    ∧ (∀ t, t ∉ itos_ v → torchtext.getitem v t = Return 4).
Proof.
  split; [reflexivity|].
  destruct (vocab_round_trip word_tokenizer word_tokenizer_no_special
              (corpus_sentences two_reviews) world0 eq_refl)
    as (v & w' & Hrun & Hv & Hrt & Habs & _).
  exists v, w'. repeat (split; [assumption|]). exact Habs.
Defined.

Lemma create_item_constant_row_witness :
  _create_item [] world0 = (Return [PyInt 0; PyInt 0; PyInt 0], world0)
  ∧ column_len [PyInt 0; PyInt 0; PyInt 0] 0 = Raise TypeError.
Proof.
  split; [reflexivity|].
  apply (create_item_constant_row [] world0 world0 [PyInt 0; PyInt 0; PyInt 0]
           eq_refl).
  lia.
Defined.

(** C2, as stated, fails: the row that [_create_item] returns holds in its
    first three columns no sequences of one length [2 * L + 3]. *)
Lemma create_item_counterexample :
  ¬ ∃ row L, fst (_create_item [] (set_optimal_sentence_length (Some L) world0))
             = Return row
      ∧ column_len row 0 = Return (2 * L + 3)
      ∧ column_len row 1 = Return (2 * L + 3)
      ∧ column_len row 2 = Return (2 * L + 3).
Proof. intros (row & L & [= <-] & H & _). discriminate H. Qed.

Lemma select_false_nsp_raises_witness :
  corpus_sentences two_reviews ≠ []
  ∧ fst (_select_false_nsp_sentences 5 (corpus_sentences two_reviews) world0)
    = Raise AttributeError.
Proof.
  split; [discriminate|].
  by rewrite (select_false_nsp_raises 5 (corpus_sentences two_reviews) world0).
Defined.

(** C6, as stated, fails: on a corpus without sentences, and on one with a
    single sentence, the selection does not fail with [DataError]; and after
    a thousand passes the redraw loop can still be running. *)
Lemma no_DataError_counterexample :
  fst (_select_false_nsp_sentences 1000 [] world0) ≠ Raise DataError
  ∧ fst (_select_false_nsp_sentences 1000 ["One sentence"] world0) ≠ Raise DataError
  ∧ fst (redraw_while_next 1000 4 0 1 (world_const 1)) = OutOfFuel.
Proof. split_and!; [discriminate|discriminate|by vm_compute]. Qed.

Lemma redraw_has_no_retry_cap_witness :
  0 ≤ 0 ∧ 0 + 1 < 4
  ∧ fst (redraw_while_next 10 4 0 (0 + 1) (world_const (0 + 1))) = OutOfFuel.
Proof.
  split; [lia|]. split; [lia|].
  apply (proj1 redraw_has_no_retry_cap 10%nat 4 0); lia.
Defined.

(** C7, as stated, fails: the exception of the estimator on an empty list
    is not a [ConfigurationError], under either behaviour of numpy. *)
Lemma empty_lengths_counterexample :
  fst (_find_optimal_sentence_length true [] world0) ≠ Raise ConfigurationError
  ∧ fst (_find_optimal_sentence_length false [] world0) ≠ Raise ConfigurationError.
Proof. split; discriminate. Qed.

Lemma empty_lengths_raise_builtin_witness :
  ds world0 = []
  ∧ prepare_dataset word_tokenizer false 5 world0 = (Raise IndexError, world0).
Proof.
  split; [reflexivity|].
  apply (empty_lengths_raise_builtin word_tokenizer false 5 world0). reflexivity.
Defined.

(** C9, as stated, fails: with the same arguments the redraw loop returns
    different indices from different states of the ambient generator, and
    the selection, which is passed no generator, advances the global one. *)
Lemma ambient_generator_counterexample :
  fst (redraw_while_next 5 4 0 1 (world_const 2))
  ≠ fst (redraw_while_next 5 4 0 1 (world_const 3))
  ∧ random_pos (snd (_select_false_nsp_sentences 5 (corpus_sentences two_reviews) world0))
    ≠ random_pos world0.
Proof. split; [discriminate|by vm_compute]. Qed.

Lemma sampler_reads_ambient_generator_witness :
  corpus_sentences two_reviews ≠ []
  ∧ (random_pos world0
     < random_pos (snd (_select_false_nsp_sentences 5 (corpus_sentences two_reviews) world0)))%nat
  ∧ fst (redraw_while_next 5 4 0 1 (world_const 2))
    = fst (redraw_while_next 5 4 0 1 (set_ds two_reviews (world_const 2))).
Proof.
  split; [discriminate|]. split.
  - apply (proj1 sampler_reads_ambient_generator). discriminate.
  - apply (proj2 sampler_reads_ambient_generator). intros n. reflexivity.
Defined.

Lemma two_sentence_review_raises_witness :
  Exists (λ review, 1 < length (PyStr.split review ". "))%nat
         (ds (set_ds two_reviews world0))
  ∧ preprocess_dataset word_tokenizer 5 (corpus_sentences two_reviews)
      (set_ds two_reviews world0)
    = (Raise TypeError, set_ds two_reviews world0).
Proof.
  assert (Exists (λ review, 1 < length (PyStr.split review ". "))%nat
                 (ds (set_ds two_reviews world0))) as Hex
    by (left; vm_compute; lia).
  split; [exact Hex|].
  exact (two_sentence_review_raises word_tokenizer 5 (corpus_sentences two_reviews)
           (set_ds two_reviews world0) Hex).
Defined.

Lemma preprocess_returns_no_example_witness :
  preprocess_dataset word_tokenizer 5 ["One sentence"] (set_ds ["One sentence"] world0)
  = (Return [], set_ds ["One sentence"] world0)
  ∧ Forall (λ review, length (PyStr.split review ". ") ≤ 1)%nat
           (ds (set_ds ["One sentence"] world0)).
Proof.
  split; [reflexivity|].
  apply (preprocess_returns_no_example word_tokenizer 5 ["One sentence"]
           (set_ds ["One sentence"] world0) (set_ds ["One sentence"] world0) []).
  reflexivity.
Defined.

(** * Further properties of the code *)

(** ** Sentence segmentation, [review.split('. ')] *)

Lemma string_app_cons x (a b : string) : String x a +:+ b = String x (a +:+ b).
Proof. reflexivity. Qed.

Lemma string_app_nil_l (a : string) : "" +:+ a = a.
Proof. reflexivity. Qed.

Lemma string_app_assoc (a b c : string) : (a +:+ b) +:+ c = a +:+ b +:+ c.
Proof.
  induction a as [|x a IH]; [done|]. rewrite !string_app_cons. by rewrite IH.
Qed.

Lemma string_app_nil_r (a : string) : a +:+ "" = a.
Proof.
  induction a as [|x a IH]; [done|]. rewrite string_app_cons. by rewrite IH.
Qed.

Lemma string_length_app (a b : string) :
  String.length (a +:+ b) = (String.length a + String.length b)%nat.
Proof.
  induction a as [|x a IH]; [done|]. rewrite string_app_cons. cbn. by rewrite IH.
Qed.

Lemma rev_acc_app cur : ∀ acc, PyStr.rev_acc cur acc = PyStr.rev_acc cur "" +:+ acc.
Proof.
  induction cur as [|c cur IH]; intros acc; cbn [PyStr.rev_acc]; [done|].
  rewrite (IH (String c acc)), (IH (String c "")).
  by rewrite string_app_assoc.
Qed.

Lemma prefix_split sep : ∀ s,
  String.prefix sep s = true → ∃ s2, s = sep +:+ s2.
Proof.
  induction sep as [|a sep IH]; intros s.
  - intros _. by exists s.
  - destruct s as [|b s]; cbn [String.prefix]; [done|].
    destruct (ascii_dec a b) as [->|]; [|done].
    intros [s2 ->]%IH. by exists s2.
Qed.

Lemma prefix_app sep s2 : String.prefix sep (sep +:+ s2) = true.
Proof.
  induction sep as [|a sep IH]; [by destruct s2|].
  rewrite string_app_cons. cbn [String.prefix].
  by destruct (ascii_dec a a).
Qed.

Lemma split_go_skip sep p : ∀ cur s,
  PyStr.split_go sep (String.length p) cur (p +:+ s) = PyStr.split_go sep 0 cur s.
Proof.
  induction p as [|c p IH]; intros cur s; [done|].
  rewrite string_app_cons. cbn [String.length PyStr.split_go]. apply IH.
Qed.

Lemma split_go_cons sep : ∀ s k cur, ∃ x r, PyStr.split_go sep k cur s = x :: r.
Proof.
  induction s as [|c s IH]; intros k cur; cbn [PyStr.split_go]; [by eexists _, _|].
  destruct k as [|k]; [|apply IH].
  destruct (String.prefix sep (String c s)); [by eexists _, _|apply IH].
Qed.

(** One step of the scan: at a match the current piece is closed and the
    scan goes on behind the separator. *)
Lemma split_go_match a sep' c s cur :
  String.prefix (String a sep') (String c s) = true →
  ∃ s2, s = sep' +:+ s2 ∧ c = a
        ∧ PyStr.split_go (String a sep') 0 cur (String c s)
          = PyStr.rev_acc cur "" :: PyStr.split_go (String a sep') 0 "" s2.
Proof.
  intros Hp. destruct (prefix_split _ _ Hp) as [s2 Hs].
  rewrite string_app_cons in Hs. injection Hs as -> ->. exists s2. split_and!; [done|done|].
  cbn [PyStr.split_go]. rewrite Hp. f_equal.
  cbn [String.length]. rewrite Nat.sub_1_r. cbn [Nat.pred].
  apply split_go_skip.
Qed.

Lemma split_go_join a sep' (n : nat) : ∀ s cur,
  (String.length s ≤ n)%nat →
  py_join (String a sep') (PyStr.split_go (String a sep') 0 cur s)
  = PyStr.rev_acc cur "" +:+ s.
Proof.
  induction n as [|n IH]; intros s cur Hn.
  - destruct s; [|cbn in Hn; lia]. cbn [PyStr.split_go py_join].
    by rewrite string_app_nil_r.
  - destruct s as [|c s];
      [cbn [PyStr.split_go py_join]; by rewrite string_app_nil_r|].
    destruct (String.prefix (String a sep') (String c s)) eqn:Hp.
    + destruct (split_go_match _ _ _ _ cur Hp) as (s2 & -> & -> & ->).
      destruct (split_go_cons (String a sep') s2 0 "") as (x & r & Hx).
      cbn [py_join]. rewrite Hx, <-Hx.
      rewrite IH by (cbn in Hn; rewrite string_length_app in Hn; lia).
      cbn [PyStr.rev_acc]. by rewrite string_app_nil_l, string_app_cons.
    + cbn [PyStr.split_go]. rewrite Hp.
      rewrite IH by (cbn in Hn; lia). cbn [PyStr.rev_acc].
      rewrite (rev_acc_app cur (String c "")). by rewrite string_app_assoc.
Qed.

Lemma split_go_occurs a sep' : ∀ p cur b,
  (1 < length (PyStr.split_go (String a sep') 0 cur (p +:+ String a sep' +:+ b)))%nat.
Proof.
  assert (∀ c s cur, String.prefix (String a sep') (String c s) = true →
            (1 < length (PyStr.split_go (String a sep') 0 cur (String c s)))%nat)
    as Hmatch.
  { intros c s cur Hp.
    destruct (split_go_match _ _ _ _ cur Hp) as (s2 & _ & _ & ->).
    destruct (split_go_cons (String a sep') s2 0 "") as (x & r & ->).
    cbn. lia. }
  induction p as [|c p IH]; intros cur b.
  - apply Hmatch. apply (prefix_app (String a sep')).
  - change (String c p +:+ String a sep' +:+ b)
      with (String c (p +:+ String a sep' +:+ b)).
    destruct (String.prefix (String a sep') (String c (p +:+ String a sep' +:+ b)))
      eqn:Hp; [by apply Hmatch|].
    cbn [PyStr.split_go]. rewrite Hp. apply IH.
Qed.

Lemma split_join (review : string) :
  py_join ". " (PyStr.split review ". ") = review.
Proof.
  unfold PyStr.split.
  by rewrite (split_go_join _ _ (String.length review)).
Qed.

Lemma split_length_occurs (review : string) :
  (1 < length (PyStr.split review ". "))%nat ↔ occurs ". " review.
Proof.
  split.
  - pose proof (split_join review) as Hj.
    destruct (PyStr.split review ". ") as [|x [|y r]]; cbn [length]; [lia..|].
    intros _. exists x, (py_join ". " (y :: r)). by rewrite <-Hj.
  - intros (p & b & ->). apply split_go_occurs.
Qed.

(** X1. Segmentation loses nothing: the sentences of a review, joined
    again with the delimiter ['. '], are the review. *)
Theorem split_join_round_trip (review : string) :
  py_join ". " (PyStr.split review ". ") = review.
Proof.
  unfold PyStr.split.
  rewrite (split_go_join "." " " (String.length review) review "") by done.
  apply string_app_nil_l.
Qed.

(** X2. A review gives two or more sentences exactly when the delimiter
    ['. '] occurs in it; one without the delimiter is its own single
    sentence, and no review gives an empty list of sentences. *)
Theorem split_two_or_more (review : string) :
  ((1 < length (PyStr.split review ". "))%nat ↔ occurs ". " review)
  ∧ (¬ occurs ". " review → PyStr.split review ". " = [review])
  ∧ PyStr.split review ". " ≠ [].
Proof.
  pose proof (split_join review) as Hj.
  pose proof (split_length_occurs review) as Hocc.
  destruct (split_go_cons ". " review 0 "") as (x & r & Hx).
  fold (PyStr.split review ". ") in Hx. rewrite Hx in Hj, Hocc |- *.
  split_and!; [done| |done].
  intros Hno. destruct r as [|y r]; [by rewrite <-Hj|].
  destruct Hno. apply Hocc. cbn. lia.
Qed.

(** ** Collecting the word counts, [_update_length] *)


(** ** The sequence-length estimator on a list that is not empty *)





(** X5. The estimator does not depend on the order of the word counts:
    two lists with the same counts give the same outcome. *)
Theorem find_optimal_permutation nan (lengths1 lengths2 : list Z) (w : world) :
  lengths1 ≡ₚ lengths2 →
  _find_optimal_sentence_length nan lengths1 w
  = _find_optimal_sentence_length nan lengths2 w.
Proof.
  intros Hperm. unfold _find_optimal_sentence_length, np_percentile.
  replace (merge_sort Z.le lengths1) with (merge_sort Z.le lengths2); [done|].
  apply (Sorted_unique Z.le); [apply Sorted_merge_sort; apply _..|].
  by rewrite !merge_sort_Permutation.
Qed.

(** ** What the counter holds after the loop of lines 84-86 *)

Lemma occurrences_cons t x l :
  occurrences t (x :: l) = (if decide (x = t) then 1 else 0) + occurrences t l.
Proof.
  unfold occurrences. rewrite filter_cons.
  destruct (decide (x = t)); cbn [length]; lia.
Qed.

Lemma occurrences_app t l1 l2 :
  occurrences t (l1 ++ l2) = occurrences t l1 + occurrences t l2.
Proof. unfold occurrences. rewrite filter_app, length_app. lia. Qed.

Lemma occurrences_pos t l : 0 < occurrences t l ↔ t ∈ l.
Proof.
  induction l as [|x l IH]; [by rewrite elem_of_nil|].
  rewrite occurrences_cons, elem_of_cons.
  assert (0 ≤ occurrences t l) by (unfold occurrences; lia).
  destruct (decide (x = t)) as [->|Hne]; [split; [by left|lia]|].
  rewrite Z.add_0_l, IH. split; [by right|]. by intros [?|?].
Qed.

Lemma counter_get_incr c t u :
  counter_get (counter_incr c t) u
  = counter_get c u + (if decide (t = u) then 1 else 0).
Proof.
  induction c as [|[k n] r IH]; cbn.
  - by destruct (decide (t = u)).
  - destruct (decide (k = t)) as [->|Hkt]; cbn.
    + destruct (decide (t = u)); lia.
    + destruct (decide (k = u)) as [->|Hku]; [|done].
      rewrite decide_False by done. lia.
Qed.

Lemma counter_get_update tokens : ∀ c u,
  counter_get (counter_update c tokens) u = counter_get c u + occurrences u tokens.
Proof.
  unfold counter_update.
  induction tokens as [|t r IH]; intros c u; cbn [foldl].
  - unfold occurrences. cbn. lia.
  - rewrite IH, counter_get_incr, occurrences_cons. lia.
Qed.

Lemma corpus_counter_update tokenizer sentences : ∀ c,
  corpus_counter tokenizer c sentences
  = counter_update c (corpus_tokens tokenizer sentences).
Proof.
  unfold corpus_counter, corpus_tokens, counter_update.
  induction sentences as [|s r IH]; intros c; cbn [foldl flat_map]; [done|].
  by rewrite IH, foldl_app.
Qed.

(** X6. The loop of lines 84-86 adds to the count of every token the
    number of times the tokenizer gave it over all sentences; it always
    returns and touches no other attribute. *)
Theorem counter_counts_occurrences tokenizer (sentences : list string) (w : world) :
  ∃ c, foldM (count_sentence tokenizer) sentences tt w = (Return tt, set_counter c w)
       ∧ ∀ t, counter_get c t
              = counter_get (counter w) t
                + occurrences t (corpus_tokens tokenizer sentences).
Proof.
  eexists. split; [apply count_sentences_run|].
  intros t. by rewrite corpus_counter_update, counter_get_update.
Qed.

(** ** The order of the vocabulary *)

Lemma first_occurrences_ext l : ∀ seen1 seen2,
  (∀ x, x ∈ seen1 ↔ x ∈ seen2) →
  first_occurrences seen1 l = first_occurrences seen2 l.
Proof.
  induction l as [|x l IH]; intros seen1 seen2 Hext; cbn; [done|].
  destruct (decide (x ∈ seen1)) as [H1|H1].
  - rewrite decide_True by (by apply Hext). by apply IH.
  - rewrite decide_False by (by rewrite <-Hext). f_equal. apply IH.
    intros y. rewrite !elem_of_cons, Hext. done.
Qed.

Lemma first_occurrences_elem l : ∀ seen x,
  x ∈ first_occurrences seen l ↔ x ∈ l ∧ x ∉ seen.
Proof.
  induction l as [|y l IH]; intros seen x; cbn.
  - rewrite elem_of_nil. tauto.
  - destruct (decide (y ∈ seen)) as [Hy|Hy].
    + rewrite IH, elem_of_cons. split; [tauto|].
      intros [[->|?] ?]; [done|tauto].
    + rewrite elem_of_cons, IH, !elem_of_cons.
      destruct (decide (x = y)) as [->|Hne]; [tauto|]. tauto.
Qed.

Lemma counter_update_keys tokens : ∀ c,
  fst <$> counter_update c tokens
  = ((fst <$> c) ++ first_occurrences (fst <$> c) tokens)%list.
Proof.
  unfold counter_update.
  induction tokens as [|t r IH]; intros c; cbn [foldl first_occurrences].
  - by rewrite app_nil_r.
  - rewrite IH, counter_incr_keys.
    destruct (decide (t ∈ fst <$> c)) as [Hin|Hnin]; [done|].
    rewrite <-app_assoc. cbn [app]. do 2 f_equal.
    apply first_occurrences_ext. intros x.
    rewrite elem_of_app, elem_of_cons, elem_of_cons, elem_of_nil. tauto.
Qed.

Lemma counter_get_notin c t : t ∉ fst <$> c → counter_get c t = 0.
Proof.
  induction c as [|[k n] r IH]; [done|]. cbn [fmap list_fmap fst counter_get].
  intros [Hne Hnin]%not_elem_of_cons. rewrite decide_False by done. by apply IH.
Qed.

Lemma retained_filter c :
  NoDup (fst <$> c) →
  retained c = filter (λ t, 2 ≤ counter_get c t) (fst <$> c).
Proof.
  unfold retained. induction c as [|[k n] r IH]; [done|].
  cbn [fmap list_fmap fst]. intros [Hk Hnd]%NoDup_cons.
  rewrite !filter_cons. cbn [snd counter_get].
  rewrite (decide_True (P:=k = k)) by done.
  assert (filter (λ t, 2 ≤ (if decide (k = t) then n else counter_get r t)) (fst <$> r)
          = filter (λ t, 2 ≤ counter_get r t) (fst <$> r)) as ->.
  { clear IH Hnd. induction (fst <$> r) as [|t l IHl]; [done|].
    apply not_elem_of_cons in Hk as [Hkt Hk]. rewrite !filter_cons.
    rewrite (decide_False (P:=k = t)) by done. rewrite IHl by done. done. }
  rewrite <-IH by done. by destruct (decide (2 ≤ n)).
Qed.

Section vocabulary_order.

Variable tokenizer : string → list string.
Hypothesis tokenizer_no_special : ∀ s t, t ∈ tokenizer s → t ∉ specials.

Lemma create_vocabulary_order sentences w :
  counter w = [] →
  ∃ v w', create_vocabulary tokenizer sentences w = (Return tt, w')
    ∧ vocab w' = Some v ∧ vocab_wf v ∧ default_index_ v = Some 4
    ∧ itos_ v
      = (specials
         ++ filter (λ t, 2 ≤ occurrences t (corpus_tokens tokenizer sentences))
              (first_occurrences [] (corpus_tokens tokenizer sentences)))%list.
Proof.
  intros Hc.
  destruct (create_vocabulary_Return tokenizer tokenizer_no_special sentences w Hc)
    as (v & Hrun & Hwf & Hi & Hd).
  exists v. eexists. split_and!; [exact Hrun|done|done|done|].
  rewrite Hi. f_equal.
  rewrite retained_filter by (apply corpus_counter_NoDup; constructor).
  rewrite corpus_counter_update, counter_update_keys. cbn [fmap list_fmap app].
  apply list_filter_iff. intros t. by rewrite counter_get_update.
Qed.

(** X7. After the vocabulary is filled from an empty counter, it holds the
    five reserved tokens followed by the tokens that the tokenizer gave at
    least twice over all sentences, in the order in which they first
    occurred (not in the order of their counts); a token is in the vocabulary
    exactly when it is reserved or occurred at least twice. *)
Theorem vocab_first_occurrence_order (sentences : list string) (w : world) :
  counter w = [] →
  ∃ v w', create_vocabulary tokenizer sentences w = (Return tt, w')
    ∧ vocab w' = Some v
    ∧ itos_ v
      = (specials
         ++ filter (λ t, 2 ≤ occurrences t (corpus_tokens tokenizer sentences))
              (first_occurrences [] (corpus_tokens tokenizer sentences)))%list
    ∧ ∀ t, t ∈ itos_ v
           ↔ t ∈ specials ∨ 2 ≤ occurrences t (corpus_tokens tokenizer sentences).
Proof.
  intros Hc.
  destruct (create_vocabulary_order sentences w Hc)
    as (v & w' & Hrun & Hv & _ & _ & Hi).
  exists v, w'. split_and!; [done..|].
  intros t. rewrite Hi, elem_of_app, list_elem_of_filter, first_occurrences_elem.
  split; [tauto|]. intros [?|Hocc]; [by left|right].
  split_and!; [done| |apply not_elem_of_nil].
  apply occurrences_pos. lia.
Qed.

(** X8. In the filled vocabulary the indices are exactly 0 up to its size
    minus one: every index in that range is decoded by [lookup_token] to a
    token that is encoded back to the same index, an index outside it is a
    [RuntimeError], and the token in place [k] among those that occurred at
    least twice has the index [5 + k]. *)
Theorem vocab_decode_encode (sentences : list string) (w : world) :
  counter w = [] →
  ∃ v w', create_vocabulary tokenizer sentences w = (Return tt, w')
    ∧ vocab w' = Some v
    ∧ (∀ i, 0 ≤ i < torchtext.len v →
            ∃ t, torchtext.lookup_token v i = Return t
                 ∧ torchtext.getitem v t = Return i)
    ∧ (∀ i, i < 0 ∨ torchtext.len v ≤ i →
            torchtext.lookup_token v i = Raise RuntimeError)
    ∧ (∀ (k : nat) t,
         filter (λ t, 2 ≤ occurrences t (corpus_tokens tokenizer sentences))
           (first_occurrences [] (corpus_tokens tokenizer sentences)) !! k = Some t →
         torchtext.getitem v t = Return (5 + Z.of_nat k)).
Proof.
  intros Hc.
  destruct (create_vocabulary_order sentences w Hc)
    as (v & w' & Hrun & Hv & Hwf & _ & Hi).
  exists v, w'. split_and!; [done..| | |].
  - intros i Hi'. unfold torchtext.len in Hi'.
    destruct (lookup_lt_is_Some_2 (itos_ v) (Z.to_nat i)) as [t Ht]; [lia|].
    exists t. rewrite <-(Z2Nat.id i) by lia.
    split; [by apply lookup_token_elem_of|by apply getitem_elem_of].
  - intros i Hi'. unfold torchtext.lookup_token.
    replace ((i <? 0) || (torchtext.len v <=? i)) with true; [done|].
    symmetry. apply orb_true_iff. rewrite Z.ltb_lt, Z.leb_le. done.
  - intros k t Hk.
    replace (5 + Z.of_nat k) with (Z.of_nat (5 + k)) by lia.
    apply getitem_elem_of; [done|]. rewrite Hi.
    by rewrite lookup_app_r; cbn [length specials];
      [replace (5 + k - 5)%nat with k by lia|lia].
Qed.

End vocabulary_order.

(** ** When [_fill_vocab] fails *)

Lemma insert_token_exists v token index :
  vocab_wf v → token ∈ itos_ v →
  torchtext.insert_token v token index = Raise RuntimeError.
Proof.
  intros Hwf Hin. unfold torchtext.insert_token.
  destruct ((index <? 0) || (torchtext.len v <? index)); [done|].
  unfold torchtext.contains. rewrite bool_decide_eq_true_2; [done|].
  by apply vocab_wf_elem_of.
Qed.

Lemma with_vocab_Raise f v e w :
  vocab w = Some v → f v = Raise e → with_vocab f w = (Raise e, w).
Proof.
  intros Hv Hf. unfold with_vocab, bind, gets, lift. by rewrite Hv, Hf.
Qed.

Ltac with_vocab_fail Hwf :=
  erewrite (bind_Raise (with_vocab _));
  [|eapply with_vocab_Raise;
    [reflexivity|apply insert_token_exists; [exact Hwf|]]].

Lemma fill_vocab_Raise w :
  NoDup (fst <$> counter w) →
  Exists (λ t, t ∈ specials) (retained (counter w)) →
  ∃ v, _fill_vocab w = (Raise RuntimeError, set_vocab (Some v) w).
Proof.
  intros Hnd Hex. apply Exists_exists in Hex as (t & Ht & Hsp).
  destruct (from_tokens_Return (retained (counter w)) torchtext.empty)
    as (v0 & E0 & Hwf0 & Hi0 & Hd0);
    [apply vocab_wf_empty|by apply retained_NoDup|intros ? _; apply not_elem_of_nil|].
  cbn in Hi0. unfold _fill_vocab.
  rewrite (bind_Return (gets counter) _ w (counter w) w) by done.
  unfold torchtext.vocab. fold (retained (counter w)).
  rewrite (bind_Return (lift _) _ w v0 w) by (unfold lift; by rewrite E0).
  rewrite (bind_Return (modify _) _ w tt (set_vocab (Some v0) w)) by done.
  destruct (decide (CLS ∈ retained (counter w))) as [H0|H0].
  { exists v0. with_vocab_fail Hwf0; [done|by rewrite Hi0]. }
  destruct (insert_token_Return v0 CLS 0) as (v1 & E1 & Hwf1 & Hi1 & Hd1);
    [done|unfold torchtext.len; lia|by rewrite Hi0|].
  rewrite Hi0 in Hi1. norm_itos Hi1. with_vocab_step E1.
  destruct (decide (PAD ∈ retained (counter w))) as [H1|H1].
  { exists v1. with_vocab_fail Hwf1; [done|rewrite Hi1; by right]. }
  destruct (insert_token_Return v1 PAD 1) as (v2 & E2 & Hwf2 & Hi2 & Hd2);
    [done|unfold torchtext.len; rewrite Hi1; cbn [length]; lia| |].
  { rewrite Hi1, not_elem_of_cons. done. }
  rewrite Hi1 in Hi2. norm_itos Hi2. with_vocab_step E2.
  destruct (decide (MASK ∈ retained (counter w))) as [H2|H2].
  { exists v2. with_vocab_fail Hwf2; [done|rewrite Hi2; by do 2 right]. }
  destruct (insert_token_Return v2 MASK 2) as (v3 & E3 & Hwf3 & Hi3 & Hd3);
    [done|unfold torchtext.len; rewrite Hi2; cbn [length]; lia| |].
  { rewrite Hi2, !not_elem_of_cons. done. }
  rewrite Hi2 in Hi3. norm_itos Hi3. with_vocab_step E3.
  destruct (decide (SEP ∈ retained (counter w))) as [H3|H3].
  { exists v3. with_vocab_fail Hwf3; [done|rewrite Hi3; by do 3 right]. }
  destruct (insert_token_Return v3 SEP 3) as (v4 & E4 & Hwf4 & Hi4 & Hd4);
    [done|unfold torchtext.len; rewrite Hi3; cbn [length]; lia| |].
  { rewrite Hi3, !not_elem_of_cons. done. }
  rewrite Hi3 in Hi4. norm_itos Hi4. with_vocab_step E4.
  destruct (decide (UNK ∈ retained (counter w))) as [H4|H4].
  { exists v4. with_vocab_fail Hwf4; [done|rewrite Hi4; by do 4 right]. }
  exfalso. apply specials_elem in Hsp.
  destruct Hsp as [->|[->|[->|[->| ->]]]]; done.
Qed.

(** X9. [_fill_vocab] returns when none of the tokens counted at least
    twice is a reserved one, and fails with the [RuntimeError] of
    [insert_token] when one of them is; in the failing case [self.vocab] is
    left assigned. *)
Theorem fill_vocab_reserved_token (w : world) :
  NoDup (fst <$> counter w) →
  (Forall (λ t, t ∉ specials) (retained (counter w)) →
     ∃ v, _fill_vocab w = (Return tt, set_vocab (Some v) w))
  ∧ (Exists (λ t, t ∈ specials) (retained (counter w)) →
     ∃ v, _fill_vocab w = (Raise RuntimeError, set_vocab (Some v) w)).
Proof.
  intros Hnd. split.
  - intros Hall. rewrite Forall_forall in Hall.
    destruct (fill_vocab_Return w Hnd Hall) as (v & Hrun & _). by exists v.
  - by apply fill_vocab_Raise.
Qed.

(** ** The redraw loop of lines 135-136 *)

Lemma redraw_while_next_exit fuel len idx next w :
  next ≠ idx + 1 → redraw_while_next fuel len idx next w = (Return next, w).
Proof.
  intros Hne%Z.eqb_neq.
  destruct fuel; [rewrite redraw_while_next_O|rewrite redraw_while_next_S];
    by rewrite Hne.
Qed.

(** X10. Whenever the redraw loop leaves, the index it gives is not the
    successor of [sentence_idx]; it is the index the loop was entered with,
    the generator untouched, or one drawn from [0 .. sentence_len - 1]; the
    generator never moves backwards. *)
Theorem redraw_returns_other_index (fuel : nat) (len idx next n : Z) (w w' : world) :
  redraw_while_next fuel len idx next w = (Return n, w') →
  n ≠ idx + 1
  ∧ (n = next ∧ w' = w ∨ 0 ≤ n ≤ len - 1)
  ∧ (random_pos w ≤ random_pos w')%nat.
Proof.
  revert next w. induction fuel as [|fuel IH]; intros next w.
  - rewrite redraw_while_next_O. destruct (next =? idx + 1) eqn:E; [done|].
    intros [= <- <-]. apply Z.eqb_neq in E. split_and!; [done|by left|done].
  - rewrite redraw_while_next_S. destruct (next =? idx + 1) eqn:E.
    + destruct (decide (0 ≤ len - 1)) as [Hlen|Hlen].
      * erewrite bind_Return by (by apply randint_Return).
        set (m := 0 + _ `mod` _).
        assert (0 ≤ m ≤ len - 1) as Hm
          by (subst m; pose proof (Z.mod_pos_bound (random_draws w (random_pos w))
                                     (len - 1 - 0 + 1)); lia).
        intros Hrun. destruct (IH _ _ Hrun) as (Hn & Hcase & Hpos).
        cbn in Hpos. split_and!; [done| |lia].
        right. destruct Hcase as [[-> _]|?]; done.
      * by erewrite bind_Raise by (apply randint_Raise; lia).
    + intros [= <- <-]. apply Z.eqb_neq in E. split_and!; [done|by left|done].
Qed.

Lemma set_random_pos_twice a b w :
  set_random_pos a (set_random_pos b w) = set_random_pos a w.
Proof. reflexivity. Qed.

(** X11. The redraw loop returns the first value drawn that is not the
    successor of [sentence_idx], and has then used exactly the draws up to
    that one: if the next [k] draws all give [sentence_idx + 1] and the one
    after gives [m], then any budget of more than [k] passes returns [m]
    with the generator [k + 1] draws further. *)
Theorem redraw_first_other_draw (k fuel : nat) (len idx m : Z) (w : world) :
  1 ≤ len →
  (∀ j, (j < k)%nat → draw_at w len (random_pos w + j) = idx + 1) →
  draw_at w len (random_pos w + k) = m →
  m ≠ idx + 1 →
  (k < fuel)%nat →
  redraw_while_next fuel len idx (idx + 1) w
  = (Return m, set_random_pos (random_pos w + k + 1) w).
Proof.
  intros Hlen. revert fuel w.
  induction k as [|k IH]; intros fuel w Hsame Hm Hne Hfuel;
    (destruct fuel as [|fuel]; [lia|]);
    rewrite redraw_while_next_S, Z.eqb_refl;
    erewrite bind_Return by (apply randint_Return; lia).
  - rewrite Nat.add_0_r in Hm. unfold draw_at in Hm. rewrite Hm.
    rewrite redraw_while_next_exit by done.
    by replace (random_pos w + 0 + 1)%nat with (S (random_pos w)) by lia.
  - pose proof (Hsame 0%nat ltac:(lia)) as H0.
    rewrite Nat.add_0_r in H0. unfold draw_at in H0. rewrite H0.
    rewrite (IH fuel (set_random_pos (S (random_pos w)) w)); [| | |done|lia].
    + rewrite set_random_pos_twice. f_equal. f_equal. cbn. lia.
    + intros j Hj. cbn. rewrite <-Nat.add_succ_r. apply (Hsame (S j)). lia.
    + cbn. by rewrite <-Nat.add_succ_r.
Qed.

(** ** The constructor *)

Lemma py_slice_None {A} (l : list A) : py_slice l None None = l.
Proof.
  unfold py_slice. cbn. rewrite Z.sub_0_r, Nat2Z.id. by rewrite take_ge.
Qed.

Lemma py_slice_contiguous {A} (l : list A) lo hi :
  ∃ a b, l = (a ++ py_slice l lo hi ++ b)%list.
Proof.
  unfold py_slice. eexists (take _ l), (drop _ (drop _ l)).
  by rewrite take_drop, take_drop.
Qed.

Lemma init_run tokenizer nan reviews ds_from ds_to text fuel w :
  __init__ tokenizer nan reviews ds_from ds_to text fuel w
  = (Raise (empty_percentile_error nan),
     set_columns
       (if text
        then ["masked_sentence"; MASKED_INDICES_COLUMN; "sentence";
              TARGET_COLUMN; TOKEN_MASK_COLUMN; NSP_TARGET_COLUMN]
        else [MASKED_INDICES_COLUMN; TARGET_COLUMN; TOKEN_MASK_COLUMN;
              NSP_TARGET_COLUMN])
       (set_should_include_text text
          (set_optimal_sentence_length None
             (set_vocab None
                (set_counter [] (set_ds (py_slice reviews ds_from ds_to) w)))))).
Proof.
  cbv beta iota delta [__init__ bind modify ret].
  destruct (bool_decide (ds_from ≠ None) || bool_decide (ds_to ≠ None)) eqn:E;
    cbv beta iota.
  - by rewrite prepare_dataset_Raise.
  - apply orb_false_iff in E as [E1 E2]. apply bool_decide_eq_false in E1, E2.
    destruct ds_from; [by destruct E1|]. destruct ds_to; [by destruct E2|].
    by rewrite py_slice_None, prepare_dataset_Raise.
Qed.

Lemma py_slice_nonneg {A} (l : list A) (lo hi : Z) :
  0 ≤ lo ≤ hi →
  py_slice l (Some lo) (Some hi)
  = take (Z.to_nat (hi - lo)) (drop (Z.to_nat lo) l).
Proof.
  intros Hlh. unfold py_slice, py_slice_bound.
  replace (lo <? 0) with false by (symmetry; apply Z.ltb_ge; lia).
  replace (hi <? 0) with false by (symmetry; apply Z.ltb_ge; lia).
  set (n := Z.of_nat (length l)).
  destruct (decide (lo ≤ n)) as [Hlo|Hlo].
  - replace (0 `max` (n `min` lo)) with lo by lia.
    destruct (decide (hi ≤ n)) as [Hhi|Hhi].
    + by replace (0 `max` (n `min` hi)) with hi by lia.
    + replace (0 `max` (n `min` hi)) with n by lia.
      rewrite !take_ge; [done|rewrite length_drop; lia..].
  - replace (0 `max` (n `min` lo)) with n by lia.
    replace (0 `max` (n `min` hi)) with n by lia.
    rewrite Z.sub_diag. cbn [Z.to_nat take].
    rewrite (drop_ge l (Z.to_nat lo)) by lia. by rewrite take_0, take_nil.
Qed.


(** X13. The reviews that [__init__] keeps in [self.ds] are
    [reviews[ds_from:ds_to]]: a run of consecutive reviews in their order;
    all of them when both bounds are [None]; and for bounds
    [0 <= ds_from <= ds_to] the reviews at the positions [ds_from] up to,
    not including, [ds_to], as far as there are any. *)
Theorem constructor_keeps_slice tokenizer nan (reviews : list string)
    (ds_from ds_to : option Z) (text : bool) (fuel : nat) (w : world) :
  let w' := snd (__init__ tokenizer nan reviews ds_from ds_to text fuel w) in
  (∃ a b, reviews = (a ++ ds w' ++ b)%list)
  ∧ (ds_from = None → ds_to = None → ds w' = reviews)
  ∧ (∀ lo hi, ds_from = Some lo → ds_to = Some hi → 0 ≤ lo ≤ hi →
       ds w' = take (Z.to_nat (hi - lo)) (drop (Z.to_nat lo) reviews)).
Proof.
  rewrite init_run. cbn [snd]. cbn [ds set_columns set_should_include_text
    set_optimal_sentence_length set_vocab set_counter set_ds].
  split_and!.
  - apply py_slice_contiguous.
  - intros -> ->. apply py_slice_None.
  - intros lo hi -> -> Hlh. by apply py_slice_nonneg.
Qed.

(** X14. The rows that [_create_item] returns do not fit the columns that
    [__init__] sets: with either setting of [should_include_text],
    [pd.DataFrame(nsp, columns=self.columns)] on a list with at least one
    such row is a [ValueError]. *)
Theorem create_item_rows_do_not_fit tokenizer nan (reviews : list string)
    (ds_from ds_to : option Z) (text : bool) (fuel : nat) (w : world)
    (nsp : list (list pyval)) :
  nsp ≠ [] →
  (∀ row, row ∈ nsp → ∃ w1 w2, _create_item [] w1 = (Return row, w2)) →
  DataFrame nsp
    (columns (snd (__init__ tokenizer nan reviews ds_from ds_to text fuel w)))
  = Raise ValueError.
Proof.
  intros Hne Hrows. rewrite init_run. cbn [snd].
  destruct nsp as [|row nsp]; [done|].
  destruct (Hrows row) as (w1 & w2 & [= <- _]); [by left|].
  by destruct text.
Qed.

(** ** The second pass on reviews of one sentence *)

(** X15. When no review contains the delimiter ['. '], the second pass
    returns the empty list of examples and leaves the state, the generator
    included, as it was. *)
Theorem preprocess_single_sentence_reviews tokenizer (fuel : nat)
    (sentences : list string) (w : world) :
  Forall (λ review, ¬ occurs ". " review) (ds w) →
  preprocess_dataset tokenizer fuel sentences w = (Return [], w).
Proof.
  intros Hall. unfold preprocess_dataset.
  rewrite (bind_Return (gets ds) _ w (ds w) w) by done. cbv beta.
  rewrite nsp_reviews_run. rewrite bool_decide_eq_false_2; [done|].
  intros (review & Hin & Hlen%split_length_occurs)%Exists_exists.
  rewrite Forall_forall in Hall. by apply (Hall review).
Qed.

(** ** The further properties at concrete inputs *)

Lemma split_two_or_more_witness :
  ¬ occurs ". " "One sentence"
  ∧ PyStr.split "One sentence" ". " = ["One sentence"].
Proof.
  assert (¬ occurs ". " "One sentence") as Hno.
  { intros H%split_length_occurs. vm_compute in H. lia. }
  split; [exact Hno|].
  exact (proj1 (proj2 (split_two_or_more "One sentence")) Hno).
Defined.


Lemma find_optimal_permutation_witness :
  [1; 2; 5] ≡ₚ [5; 1; 2]
  ∧ _find_optimal_sentence_length false [1; 2; 5] world0
    = _find_optimal_sentence_length false [5; 1; 2] world0.
Proof.
  assert ([1; 2; 5] ≡ₚ [5; 1; 2]) as Hp
    by (symmetry; apply (Permutation_cons_append [1; 2] 5)).
  split; [exact Hp|].
  exact (find_optimal_permutation false [1; 2; 5] [5; 1; 2] world0 Hp).
Defined.

Lemma vocab_first_occurrence_order_witness :
  counter world0 = []
  ∧ ∃ v w', create_vocabulary word_tokenizer (corpus_sentences two_reviews) world0
            = (Return tt, w')
    ∧ vocab w' = Some v
    ∧ itos_ v = (specials ++ ["sent"; "sent."])%list.
Proof.
  split; [reflexivity|].
  destruct (vocab_first_occurrence_order word_tokenizer word_tokenizer_no_special
              (corpus_sentences two_reviews) world0 eq_refl)
    as (v & w' & Hrun & Hv & Hi & _).
  exists v, w'. repeat (split; [assumption|]). exact Hi.
Defined.

Lemma vocab_decode_encode_witness :
  counter world0 = []
  ∧ ∃ v w', create_vocabulary word_tokenizer (corpus_sentences two_reviews) world0
            = (Return tt, w')
    ∧ vocab w' = Some v
    ∧ torchtext.getitem v "sent." = Return 6.
Proof.
  split; [reflexivity|].
  destruct (vocab_decode_encode word_tokenizer word_tokenizer_no_special
              (corpus_sentences two_reviews) world0 eq_refl)
    as (v & w' & Hrun & Hv & _ & _ & Hk).
  exists v, w'. repeat (split; [assumption|]).
  exact (Hk 1%nat "sent." eq_refl).
Defined.

Lemma fill_vocab_reserved_token_witness :
  NoDup (fst <$> counter world_reserved)
  ∧ Exists (λ t, t ∈ specials) (retained (counter world_reserved))
  ∧ (∃ v, _fill_vocab world_reserved
          = (Raise RuntimeError, set_vocab (Some v) world_reserved))
  ∧ Forall (λ t, t ∉ specials) (retained (counter world0))
  ∧ (∃ v, _fill_vocab world0 = (Return tt, set_vocab (Some v) world0)).
Proof.
  assert (NoDup (fst <$> counter world_reserved)) as Hnd
    by (apply (bool_decide_unpack _); by vm_compute).
  assert (Exists (λ t, t ∈ specials) (retained (counter world_reserved))) as Hex
    by (apply (bool_decide_unpack _); by vm_compute).
  assert (Forall (λ t, t ∉ specials) (retained (counter world0))) as Hall
    by constructor.
  split_and!; [exact Hnd|exact Hex| |exact Hall|].
  - exact (proj2 (fill_vocab_reserved_token world_reserved Hnd) Hex).
  - exact (proj1 (fill_vocab_reserved_token world0 (NoDup_nil_2)) Hall).
Defined.

Lemma redraw_returns_other_index_witness :
  redraw_while_next 5 4 0 1 (world_const 2)
  = (Return 2, set_random_pos 1 (world_const 2))
  ∧ 2 ≠ 0 + 1.
Proof.
  split; [reflexivity|].
  apply (redraw_returns_other_index 5 4 0 1 2 (world_const 2)
           (set_random_pos 1 (world_const 2))).
  reflexivity.
Defined.

Lemma redraw_first_other_draw_witness :
  1 ≤ 4
  ∧ draw_at world_succ 4 (random_pos world_succ + 0) = 0 + 1
  ∧ draw_at world_succ 4 (random_pos world_succ + 1) = 2
  ∧ redraw_while_next 5 4 0 (0 + 1) world_succ
    = (Return 2, set_random_pos (random_pos world_succ + 1 + 1) world_succ).
Proof.
  split; [lia|]. split; [reflexivity|]. split; [reflexivity|].
  apply (redraw_first_other_draw 1 5 4 0 2 world_succ); [lia| |reflexivity|lia|lia].
  intros j Hj. replace j with 0%nat by lia. reflexivity.
Defined.

Lemma constructor_keeps_slice_witness :
  0 ≤ 0 ≤ 1
  ∧ ds (snd (__init__ word_tokenizer false two_reviews (Some 0) (Some 1) false 5 world0))
    = take (Z.to_nat (1 - 0)) (drop (Z.to_nat 0) two_reviews).
Proof.
  split; [lia|].
  apply (proj2 (proj2 (constructor_keeps_slice word_tokenizer false two_reviews
                         (Some 0) (Some 1) false 5 world0)) 0 1 eq_refl eq_refl).
  lia.
Defined.

Lemma create_item_rows_do_not_fit_witness :
  [[PyInt 0; PyInt 0; PyInt 0]] ≠ []
  ∧ DataFrame [[PyInt 0; PyInt 0; PyInt 0]]
      (columns (snd (__init__ word_tokenizer false two_reviews None None true 5 world0)))
    = Raise ValueError.
Proof.
  split; [discriminate|].
  apply (create_item_rows_do_not_fit word_tokenizer false two_reviews None None
           true 5 world0 [[PyInt 0; PyInt 0; PyInt 0]]); [discriminate|].
  intros row ->%list_elem_of_singleton. by exists world0, world0.
Defined.

Lemma preprocess_single_sentence_reviews_witness :
  Forall (λ review, ¬ occurs ". " review) (ds (set_ds ["One sentence"] world0))
  ∧ preprocess_dataset word_tokenizer 5 ["One sentence"] (set_ds ["One sentence"] world0)
    = (Return [], set_ds ["One sentence"] world0).
Proof.
  assert (Forall (λ review, ¬ occurs ". " review) (ds (set_ds ["One sentence"] world0)))
    as Hall.
  { repeat constructor. intros H%split_length_occurs. vm_compute in H. lia. }
  split; [exact Hall|].
  exact (preprocess_single_sentence_reviews word_tokenizer 5 ["One sentence"]
           (set_ds ["One sentence"] world0) Hall).
Defined.
